(** * The account/lease lifecycle store of DCE ([pkg/db/db.go])

    A shallow embedding of the [DB] service and of the part of DynamoDB it
    talks to, followed by the properties of the store that the design
    document states.

    Layout:
    - Go values: errors, slices, results;
    - the backing store: attribute values, items, tables, and the three
      client calls [GetItem], [Query] and [UpdateItem] the service issues;
    - the record types and their (un)marshalling;
    - the expression builder;
    - the [DB] methods, in the order of [db.go];
    - the properties. *)

From Stdlib Require Import ZArith String Ascii List Lia.
From stdpp Require Import base option list gmap strings fin_maps pretty.

Set Warnings "-register-all".
Local Open Scope string_scope.
Local Open Scope Z_scope.
Local Open Scope list_scope.

(** ** Go values *)

(** Modelled from the spec: [StatusTransitionError], the error of a failed
    guard, which carries its message (its declaration, in
    [pkg/db/errors.go], is not part of the excerpt).  The other constructors
    are the dynamic types of the Go errors that reach a caller of [DB]:
    Go's [error] is an interface. *)
Inductive error : Type :=
  | ErrorString (msg : string)                (* errors.New, fmt.Errorf *)
  | AwsError (code : string) (message : string) (* awserr.Error *)
  | StatusTransitionError (err : string)      (* *StatusTransitionError *)
  | UnmarshalTypeError (value : string) (type : string)
  | WithMessage (cause : error) (msg : string). (* errors2.Wrap / Wrapf *)

(** [err.(awserr.Error)]: the type assertion and the [Code()] it gives. *)
Definition awsErrCode (e : error) : option string :=
  match e with
  | AwsError code _ => Some code
  | _ => None
  end.

(** The outcome of a client call or of a decoding step: the code tests
    [err != nil] before it looks at the value. *)
Inductive result (A : Type) : Type :=
  | Ok (a : A)
  | Err (e : error).
Arguments Ok {A} a.
Arguments Err {A} e.

#[global] Instance result_ret : MRet result := fun A a => Ok a.
#[global] Instance result_bind : MBind result := fun A B k r =>
  match r with
  | Ok a => k a
  | Err e => Err e
  end.

(** A Go slice: [nil] is a value of its own, different from the empty
    slice [[]T{}], although both have length zero. *)
Inductive slice (A : Type) : Type :=
  | NilSlice
  | Slice (elems : list A).
Arguments NilSlice {A}.
Arguments Slice {A} elems.

Definition elems {A} (s : slice A) : list A :=
  match s with
  | NilSlice => []
  | Slice l => l
  end.

Definition len {A} (s : slice A) : nat := length (elems s).

(** [append(s, x)]: never nil. *)
Definition append {A} (s : slice A) (x : A) : slice A := Slice (elems s ++ [x]).

(** The double quote character, for the messages that quote a status. *)
Definition dquote : string := String (ascii_of_nat 34) EmptyString.

(** int64 *)
Definition int64_min : Z := - 2 ^ 63.
Definition int64_max : Z := 2 ^ 63 - 1.
Definition is_int64 (z : Z) : bool := (int64_min <=? z) && (z <=? int64_max).

(** ** The backing store *)

(** [dynamodb.AttributeValue], for the attribute kinds the two tables hold:
    strings, numbers, booleans, NULL and maps (the account metadata).  A
    number is kept as the integer its decimal text denotes. *)
Inductive AttributeValue : Type :=
  | AvS (s : string)
  | AvN (n : Z)
  | AvBOOL (b : bool)
  | AvNULL
  | AvM (m : list (string * AttributeValue)).

(** Equality of attribute values, as the store's [=] comparator decides it. *)
Fixpoint av_eqb (a b : AttributeValue) {struct a} : bool :=
  match a, b with
  | AvS s, AvS t => String.eqb s t
  | AvN n, AvN k => Z.eqb n k
  | AvBOOL x, AvBOOL y => Bool.eqb x y
  | AvNULL, AvNULL => true
  | AvM m, AvM m' =>
      (fix go (l l' : list (string * AttributeValue)) {struct l} : bool :=
         match l, l' with
         | [], [] => true
         | (k, v) :: r, (k', v') :: r' => String.eqb k k' && av_eqb v v' && go r r'
         | _, _ => false
         end) m m'
  | _, _ => false
  end.

(** An item: [map[string]*dynamodb.AttributeValue]. *)
Abbreviation Item := (gmap string AttributeValue).

(** A table: its primary-key schema (the names of the key attributes, all of
    type S in the two tables of this service), its secondary indexes (index
    name to the attribute the index is keyed on), and its rows, filed under
    the values of their key attributes. *)
Record Table : Type := {
  keySchema : list string;
  indexes : gmap string string;
  rows : gmap (list string) Item;
}.

Definition withRows (tbl : Table) (r : gmap (list string) Item) : Table :=
  {| keySchema := keySchema tbl; indexes := indexes tbl; rows := r |}.

(** A SET action [path = operand] of an update expression and a comparison
    [path = operand] of a condition expression.  A path is an attribute name
    or a [#alias] declared in ExpressionAttributeNames; an operand is a
    [:placeholder] declared in ExpressionAttributeValues. *)
Inductive SetAction : Type := SetTo (path : string) (operand : string).
Inductive Comparison : Type := Equals (path : string) (operand : string).

Inductive ReturnValue : Type := NONE | ALL_OLD | ALL_NEW.

Record GetItemInput : Type := {
  gi_TableName : string;
  gi_Key : Item;
  gi_ConsistentRead : bool;
}.

Record GetItemOutput : Type := { Item_ : option Item }.

Record QueryInput : Type := {
  q_TableName : string;
  q_IndexName : string;
  q_ExpressionAttributeValues : Item;
  q_KeyConditionExpression : Comparison;
}.

Record QueryOutput : Type := { Items : list Item }.

Record UpdateItemInput : Type := {
  u_TableName : string;
  u_Key : Item;
  u_ExpressionAttributeNames : gmap string string;
  u_ExpressionAttributeValues : Item;
  u_UpdateExpression : list SetAction;
  u_ConditionExpression : option Comparison;
  u_ReturnValues : ReturnValue;
}.

Record UpdateItemOutput : Type := { Attributes : Item }.

Inductive Request : Type :=
  | ReqGetItem (i : GetItemInput)
  | ReqQuery (i : QueryInput)
  | ReqUpdateItem (i : UpdateItemInput).

(** The service behind [dynamodbiface.DynamoDBAPI]: its tables, the failure
    it answers every request with while it is out of order ([None] when it
    is healthy), and the requests it has received, oldest first. *)
Record DynamoDB : Type := {
  tables : gmap string Table;
  outage : option error;
  calls : list Request;
}.

Definition received (r : Request) (σ : DynamoDB) : DynamoDB :=
  {| tables := tables σ; outage := outage σ; calls := calls σ ++ [r] |}.

Definition withTable (name : string) (tbl : Table) (σ : DynamoDB) : DynamoDB :=
  {| tables := <[name := tbl]> (tables σ); outage := outage σ; calls := calls σ |}.

Definition ValidationException (message : string) : error :=
  AwsError "ValidationException" message.
Definition ResourceNotFoundException : error :=
  AwsError "ResourceNotFoundException" "Requested resource not found".
Definition ConditionalCheckFailedException : error :=
  AwsError "ConditionalCheckFailedException" "The conditional request failed".

(** The primary key a [Key] map denotes under a key schema: the S values of
    the schema's attributes, and nothing else in the map. *)
Definition asS (v : AttributeValue) : option string :=
  match v with
  | AvS s => Some s
  | _ => None
  end.

Definition keyOf (schema : list string) (key : Item) : option (list string) :=
  if bool_decide (size key = length schema)
  then mapM (fun a => key !! a ≫= asS) schema
  else None.

(** Resolution of paths and operands against the two alias maps. *)
Definition isAlias (path : string) : bool :=
  match path with
  | String c _ => Ascii.eqb c (ascii_of_nat 35)
  | EmptyString => false
  end.

Definition resolvePath (names : gmap string string) (path : string) : option string :=
  if isAlias path then names !! path else Some path.

Definition resolveSet (names : gmap string string) (values : Item)
    (a : SetAction) : option (string * AttributeValue) :=
  match a with
  | SetTo path operand =>
      n ← resolvePath names path; v ← values !! operand; Some (n, v)
  end.

Definition resolveComparison (names : gmap string string) (values : Item)
    (c : Comparison) : option (string * AttributeValue) :=
  match c with
  | Equals path operand =>
      n ← resolvePath names path; v ← values !! operand; Some (n, v)
  end.

(** A comparison holds of a stored item when the attribute is there and
    equal to the operand; it fails on an item that does not exist. *)
Definition holds (c : string * AttributeValue) (stored : option Item) : bool :=
  match stored ≫= (fun item => item !! c.1) with
  | Some v => av_eqb v c.2
  | None => false
  end.

(** The effect of resolved SET actions on an item, left to right. *)
Definition applySet (acts : list (string * AttributeValue)) (item : Item) : Item :=
  foldl (fun it a => <[a.1 := a.2]> it) item acts.

Definition require {A} (o : option A) (message : string) : result A :=
  match o with
  | Some a => Ok a
  | None => Err (ValidationException message)
  end.

(** [GetItem]: the row under the key, [Item_ = None] (a nil map) when there
    is none. *)
Definition GetItem (input : GetItemInput) (σ : DynamoDB)
    : result GetItemOutput * DynamoDB :=
  let σ' := received (ReqGetItem input) σ in
  match outage σ with
  | Some e => (Err e, σ')
  | None =>
      match tables σ !! gi_TableName input with
      | None => (Err ResourceNotFoundException, σ')
      | Some tbl =>
          (k ← require (keyOf (keySchema tbl) (gi_Key input))
                 "The provided key element does not match the schema";
           Ok {| Item_ := rows tbl !! k |}, σ')
      end
  end.

(** [Query] on a secondary index with an equality key condition: the rows
    that carry the index attribute with the value asked for. *)
Definition matching (c : string * AttributeValue) (tbl : Table) : list Item :=
  List.filter (fun item => holds c (Some item)) (map snd (map_to_list (rows tbl))).

Definition queryTable (tbl : Table) (input : QueryInput) : result QueryOutput :=
  attr ← require (indexes tbl !! q_IndexName input)
           "The table does not have the specified index";
  c ← require (resolveComparison ∅ (q_ExpressionAttributeValues input)
                 (q_KeyConditionExpression input))
        "Invalid KeyConditionExpression: an expression attribute value is not defined";
  if String.eqb c.1 attr
  then Ok {| Items := matching c tbl |}
  else Err (ValidationException "Query condition missed key schema element").

Definition Query (input : QueryInput) (σ : DynamoDB)
    : result QueryOutput * DynamoDB :=
  let σ' := received (ReqQuery input) σ in
  match outage σ with
  | Some e => (Err e, σ')
  | None =>
      match tables σ !! q_TableName input with
      | None => (Err ResourceNotFoundException, σ')
      | Some tbl => (queryTable tbl input, σ')
      end
  end.

(** [UpdateItem]: one atomic step of the store.  The condition, when there
    is one, is evaluated on the row as it is stored; only if it holds are
    the SET actions applied, to the stored row or, when there is none, to a
    new row made of the key attributes (an upsert).  A SET on a key
    attribute is refused. *)
Definition passes (cond : option (string * AttributeValue)) (stored : option Item) : bool :=
  match cond with
  | Some c => holds c stored
  | None => true
  end.

Definition returned (rv : ReturnValue) (old : option Item) (new : Item) : Item :=
  match rv with
  | NONE => ∅
  | ALL_OLD => default ∅ old
  | ALL_NEW => new
  end.

Definition updateRow (tbl : Table) (input : UpdateItemInput) : result (Item * Table) :=
  let names := u_ExpressionAttributeNames input in
  let values := u_ExpressionAttributeValues input in
  k ← require (keyOf (keySchema tbl) (u_Key input))
        "The provided key element does not match the schema";
  acts ← require (mapM (resolveSet names values) (u_UpdateExpression input))
           "Invalid UpdateExpression: an expression attribute is not defined";
  cond ← match u_ConditionExpression input with
         | None => Ok None
         | Some c =>
             rc ← require (resolveComparison names values c)
                    "Invalid ConditionExpression: an expression attribute is not defined";
             Ok (Some rc)
         end;
  if existsb (fun a => bool_decide (a.1 ∈ keySchema tbl)) acts
  then Err (ValidationException "Cannot update attribute: it is part of the key")
  else
    let old := rows tbl !! k in
    if passes cond old
    then
      let new := applySet acts (default (u_Key input) old) in
      Ok (returned (u_ReturnValues input) old new, withRows tbl (<[k := new]> (rows tbl)))
    else Err ConditionalCheckFailedException.

Definition UpdateItem (input : UpdateItemInput) (σ : DynamoDB)
    : result UpdateItemOutput * DynamoDB :=
  let σ' := received (ReqUpdateItem input) σ in
  match outage σ with
  | Some e => (Err e, σ')
  | None =>
      match tables σ !! u_TableName input with
      | None => (Err ResourceNotFoundException, σ')
      | Some tbl =>
          match updateRow tbl input with
          | Ok (attrs, tbl') =>
              (Ok {| Attributes := attrs |}, withTable (u_TableName input) tbl' σ')
          | Err e => (Err e, σ')
          end
      end
  end.

(** ** The records *)

(** [type AccountStatus string], [type LeaseStatus string] and
    [type LeaseStatusReason string]. *)
Abbreviation AccountStatus := string (only parsing).
Abbreviation LeaseStatus := string (only parsing).
Abbreviation LeaseStatusReason := string (only parsing).

(** Modelled from the spec: the [Account] struct ([pkg/db/model.go] is not
    part of the excerpt).  The fields are those of the data model; the
    status is stored under the attribute [AccountStatus] the store's
    expressions name, the others under the attribute names of the tables. *)
Module Account.
Record t : Type := {
  ID : string;
  Status : AccountStatus;
  LastModifiedOn : Z;
  CreatedOn : Z;
  AdminRoleArn : string;
  PrincipalRoleArn : string;
  PrincipalPolicyHash : string;
  Metadata : list (string * AttributeValue);
}.
End Account.

(** Modelled from the spec: the [Lease] struct ([pkg/db/model.go] is not
    part of the excerpt), with the fields of the data model. *)
Module Lease.
Record t : Type := {
  AccountID : string;
  PrincipalID : string;
  ID : string;
  LeaseStatus : LeaseStatus;
  LeaseStatusReason : LeaseStatusReason;
  LastModifiedOn : Z;
  LeaseStatusModifiedOn : Z;
  ExpiresOn : Z;
}.
End Lease.

(** [dynamodbattribute] decoding of one attribute into a struct field: an
    attribute that is missing or NULL leaves the zero value, an attribute of
    another kind than the field's is an [UnmarshalTypeError]. *)
Definition decodeString (item : Item) (name : string) : result string :=
  match item !! name with
  | None | Some AvNULL => Ok EmptyString
  | Some (AvS s) => Ok s
  | Some (AvN _) => Err (UnmarshalTypeError "number" "string")
  | Some (AvBOOL _) => Err (UnmarshalTypeError "bool" "string")
  | Some (AvM _) => Err (UnmarshalTypeError "map" "string")
  end.

Definition decodeInt64 (item : Item) (name : string) : result Z :=
  match item !! name with
  | None | Some AvNULL => Ok 0
  | Some (AvN n) =>
      if is_int64 n then Ok n else Err (UnmarshalTypeError "number overflow" "int64")
  | Some (AvS _) => Err (UnmarshalTypeError "string" "int64")
  | Some (AvBOOL _) => Err (UnmarshalTypeError "bool" "int64")
  | Some (AvM _) => Err (UnmarshalTypeError "map" "int64")
  end.

Definition decodeMap (item : Item) (name : string)
    : result (list (string * AttributeValue)) :=
  match item !! name with
  | None | Some AvNULL => Ok []
  | Some (AvM m) => Ok m
  | Some (AvS _) => Err (UnmarshalTypeError "string" "map[string]interface {}")
  | Some (AvN _) => Err (UnmarshalTypeError "number" "map[string]interface {}")
  | Some (AvBOOL _) => Err (UnmarshalTypeError "bool" "map[string]interface {}")
  end.

(** [dynamodbattribute.UnmarshalMap(dbResult, &account)] *)
Definition UnmarshalMapAccount (dbResult : Item) : result Account.t :=
  id ← decodeString dbResult "Id";
  status ← decodeString dbResult "AccountStatus";
  lastModifiedOn ← decodeInt64 dbResult "LastModifiedOn";
  createdOn ← decodeInt64 dbResult "CreatedOn";
  adminRoleArn ← decodeString dbResult "AdminRoleArn";
  principalRoleArn ← decodeString dbResult "PrincipalRoleArn";
  principalPolicyHash ← decodeString dbResult "PrincipalPolicyHash";
  metadata ← decodeMap dbResult "Metadata";
  Ok {| Account.ID := id; Account.Status := status;
        Account.LastModifiedOn := lastModifiedOn; Account.CreatedOn := createdOn;
        Account.AdminRoleArn := adminRoleArn;
        Account.PrincipalRoleArn := principalRoleArn;
        Account.PrincipalPolicyHash := principalPolicyHash;
        Account.Metadata := metadata |}.

(** [dynamodbattribute.UnmarshalMap(dbResult, &lease)] *)
Definition UnmarshalMapLease (dbResult : Item) : result Lease.t :=
  accountID ← decodeString dbResult "AccountId";
  principalID ← decodeString dbResult "PrincipalId";
  id ← decodeString dbResult "Id";
  leaseStatus ← decodeString dbResult "LeaseStatus";
  leaseStatusReason ← decodeString dbResult "LeaseStatusReason";
  lastModifiedOn ← decodeInt64 dbResult "LastModifiedOn";
  leaseStatusModifiedOn ← decodeInt64 dbResult "LeaseStatusModifiedOn";
  expiresOn ← decodeInt64 dbResult "ExpiresOn";
  Ok {| Lease.AccountID := accountID; Lease.PrincipalID := principalID;
        Lease.ID := id; Lease.LeaseStatus := leaseStatus;
        Lease.LeaseStatusReason := leaseStatusReason;
        Lease.LastModifiedOn := lastModifiedOn;
        Lease.LeaseStatusModifiedOn := leaseStatusModifiedOn;
        Lease.ExpiresOn := expiresOn |}.

(** [unmarshalAccount] and [unmarshalLease]: the record, or the error of
    the decoder. *)
Definition unmarshalAccount (dbResult : Item) : result Account.t :=
  UnmarshalMapAccount dbResult.

Definition unmarshalLease (dbResult : Item) : result Lease.t :=
  UnmarshalMapLease dbResult.

(** [dynamodbattribute] encoding of a struct field: an empty string is
    encoded as NULL. *)
Definition marshalString (s : string) : AttributeValue :=
  if String.eqb s EmptyString then AvNULL else AvS s.

Definition marshalInt64 (n : Z) : AttributeValue := AvN n.

(** ** The expression builder *)

(** What reflection shows of a struct value: for each field its Go name, the
    value of its [json] tag and its value (as the attribute value it is
    marshalled to when the expression is built). *)
Record StructField : Type := {
  fieldName : string;
  jsonTag : string;
  fieldVal : AttributeValue;
}.

(** Modelled from the spec: the fields of a [Lease] as reflection shows
    them, in the order of the data model, each with the attribute name the
    lease table has for it as its [json] tag (the declaration of the struct
    is not part of the excerpt; the names are those of the keys, indexes
    and expressions of [db.go]). *)
Definition reflectLease (lease : Lease.t) : list StructField :=
  [ {| fieldName := "AccountID"; jsonTag := "AccountId";
       fieldVal := marshalString (Lease.AccountID lease) |};
    {| fieldName := "PrincipalID"; jsonTag := "PrincipalId";
       fieldVal := marshalString (Lease.PrincipalID lease) |};
    {| fieldName := "ID"; jsonTag := "Id";
       fieldVal := marshalString (Lease.ID lease) |};
    {| fieldName := "LeaseStatus"; jsonTag := "LeaseStatus";
       fieldVal := marshalString (Lease.LeaseStatus lease) |};
    {| fieldName := "LeaseStatusReason"; jsonTag := "LeaseStatusReason";
       fieldVal := marshalString (Lease.LeaseStatusReason lease) |};
    {| fieldName := "LastModifiedOn"; jsonTag := "LastModifiedOn";
       fieldVal := marshalInt64 (Lease.LastModifiedOn lease) |};
    {| fieldName := "LeaseStatusModifiedOn"; jsonTag := "LeaseStatusModifiedOn";
       fieldVal := marshalInt64 (Lease.LeaseStatusModifiedOn lease) |};
    {| fieldName := "ExpiresOn"; jsonTag := "ExpiresOn";
       fieldVal := marshalInt64 (Lease.ExpiresOn lease) |} ].

(** [expression.UpdateBuilder]: the SET operations asked for, in the order
    of the calls to [Set]. *)
Abbreviation UpdateBuilder := (list (string * AttributeValue)).

(** [expression.Expression]: what [Names()], [Values()] and [Update()]
    give. *)
Record Expression : Type := {
  Names : gmap string string;
  Values : Item;
  Update : list SetAction;
}.

(** The alias list of [expression.Builder]: a name gets the alias [#i] of
    its first occurrence, every value an alias [:i] of its own. *)
Record aliasList : Type := {
  namesList : list string;
  valuesList : list AttributeValue;
}.

Definition aliasOf (sigil : string) (i : nat) : string := sigil +:+ pretty i.

Definition aliasPath (nm : string) (names : list string) : string * list string :=
  match list_find (fun name => name = nm) names with
  | Some (ind, _) => (aliasOf "#" ind, names)
  | None => (aliasOf "#" (length names), names ++ [nm])
  end.

Definition aliasValue (v : AttributeValue) (values : list AttributeValue)
    : string * list AttributeValue :=
  (aliasOf ":" (length values), values ++ [v]).

Definition unsetParameterError (function parameter : string) : error :=
  ErrorString ("unset parameter error: " +:+ function +:+ ", " +:+ parameter).

Fixpoint buildChildNodes (ops : UpdateBuilder) (al : aliasList)
    : result (list SetAction * aliasList) :=
  match ops with
  | [] => Ok ([], al)
  | (nm, v) :: ops' =>
      if String.eqb nm EmptyString
      then Err (unsetParameterError "BuildOperand" "NameBuilder")
      else
        let '(path, names') := aliasPath nm (namesList al) in
        let '(operand, values') := aliasValue v (valuesList al) in
        r ← buildChildNodes ops' {| namesList := names'; valuesList := values' |};
        Ok (SetTo path operand :: r.1, r.2)
  end.

Fixpoint aliasMap {A} (sigil : string) (i : nat) (l : list A) : gmap string A :=
  match l with
  | [] => ∅
  | x :: l' => <[aliasOf sigil i := x]> (aliasMap sigil (S i) l')
  end.

(** [expression.NewBuilder().WithUpdate(updateBuilder).Build()] *)
Definition Build (updateBuilder : UpdateBuilder) : result Expression :=
  match updateBuilder with
  | [] => Err (unsetParameterError "buildTree" "UpdateBuilder")
  | _ =>
      r ← buildChildNodes updateBuilder {| namesList := []; valuesList := [] |};
      Ok {| Names := aliasMap "#" 0 (namesList r.2);
            Values := aliasMap ":" 0 (valuesList r.2);
            Update := r.1 |}
  end.

Record buildUpdateExpressInput : Type := {
  obj : list StructField;
  excludeFields : list string;
  includeFields : list string;
}.

Fixpoint containsStr (list : list string) (item : string) : bool :=
  match list with
  | [] => false
  | i :: rest => if String.eqb i item then true else containsStr rest item
  end.

(** The loop of [buildUpdateExpression] over the fields of the object. *)
Definition selectFields (input : buildUpdateExpressInput) : UpdateBuilder :=
  let shouldExclude := (0 <? length (excludeFields input))%nat in
  let shouldInclude := (0 <? length (includeFields input))%nat in
  foldl (fun updateBuilder f =>
           let isExcluded := shouldExclude && containsStr (excludeFields input) (fieldName f) in
           let isNotIncluded :=
             shouldInclude && negb (containsStr (includeFields input) (fieldName f)) in
           if isExcluded || isNotIncluded
           then updateBuilder
           else updateBuilder ++ [(jsonTag f, fieldVal f)])
        [] (obj input).

Definition buildUpdateExpression (input : buildUpdateExpressInput)
    : result Expression :=
  let shouldExclude := (0 <? length (excludeFields input))%nat in
  let shouldInclude := (0 <? length (includeFields input))%nat in
  if shouldExclude && shouldInclude
  then Err (ErrorString
         ("unable to build DynDB update expression: " +:+
          "request may specify includeFields or excludeFields, but not both"))
  else Build (selectFields input).

(** ** The DB service *)

(** [DB], without the client: the state of the service behind the client
    is passed to every method and returned by it. *)
Record DB : Type := {
  AccountTableName : string;
  LeaseTableName : string;
  DefaultLeaseLengthInDays : Z;
  ConsistentRead : bool;
}.

(** A Go return of a pointer and an error: the pointer is nil exactly when
    the error is not. *)
Definition ptrErr {A} (r : result A) : option A * option error :=
  match r with
  | Ok a => (Some a, None)
  | Err err => (None, Some err)
  end.

Definition GetAccount (db : DB) (accountID : string) (σ : DynamoDB)
    : (option Account.t * option error) * DynamoDB :=
  let '(r, σ') :=
    GetItem {| gi_TableName := AccountTableName db;
               gi_Key := {[ "Id" := AvS accountID ]};
               gi_ConsistentRead := ConsistentRead db |} σ in
  match r with
  | Err err => ((None, Some err), σ')
  | Ok result =>
      match Item_ result with
      | None => ((None, None), σ')
      | Some item => (ptrErr (unmarshalAccount item), σ')
      end
  end.

(** The loop of [FindAccountsByStatus]: stops at the first item that does
    not decode, with the accounts decoded so far. *)
Fixpoint appendAccounts (items : list Item) (accounts : slice Account.t)
    : slice Account.t * option error :=
  match items with
  | [] => (accounts, None)
  | item :: rest =>
      match unmarshalAccount item with
      | Err err => (accounts, Some err)
      | Ok acct => appendAccounts rest (append accounts acct)
      end
  end.

Definition FindAccountsByStatus (db : DB) (status : AccountStatus) (σ : DynamoDB)
    : (slice Account.t * option error) * DynamoDB :=
  let '(r, σ') :=
    Query {| q_TableName := AccountTableName db;
             q_IndexName := "AccountStatus";
             q_ExpressionAttributeValues := {[ ":status" := AvS status ]};
             q_KeyConditionExpression := Equals "AccountStatus" ":status" |} σ in
  let accounts := Slice [] in
  match r with
  | Err err => ((accounts, Some err), σ')
  | Ok res => (appendAccounts (Items res) accounts, σ')
  end.

Definition GetLeaseByID (db : DB) (leaseID : string) (σ : DynamoDB)
    : (option Lease.t * option error) * DynamoDB :=
  let input :=
    {| q_ExpressionAttributeValues := {[ ":a1" := AvS leaseID ]};
       q_KeyConditionExpression := Equals "Id" ":a1";
       q_TableName := LeaseTableName db;
       q_IndexName := "LeaseId" |} in
  let '(r, σ') := Query input σ in
  match r with
  | Err err => ((None, Some err), σ')
  | Ok resp =>
      if (length (Items resp) <? 1)%nat
      then ((None, Some (ErrorString ("No Lease found with id: " +:+ leaseID))), σ')
      else if (1 <? length (Items resp))%nat
      then ((None, Some (ErrorString ("Found more than one Lease with id: " +:+ leaseID))), σ')
      else
        match Items resp with
        | item :: _ => (ptrErr (unmarshalLease item), σ')
        | [] => ((None, None), σ')   (* not reached: the length is 1 *)
        end
  end.

(** The loop of [FindLeasesByPrincipal]: nil and the error at the first
    item that does not decode. *)
Fixpoint appendLeases (items : list Item) (leases : slice Lease.t)
    : slice Lease.t * option error :=
  match items with
  | [] => (leases, None)
  | r :: rest =>
      match unmarshalLease r with
      | Err err => (NilSlice, Some err)
      | Ok n => appendLeases rest (append leases n)
      end
  end.

Definition FindLeasesByPrincipal (db : DB) (principalID : string) (σ : DynamoDB)
    : (slice Lease.t * option error) * DynamoDB :=
  let input :=
    {| q_IndexName := "PrincipalId";
       q_ExpressionAttributeValues := {[ ":u1" := AvS principalID ]};
       q_KeyConditionExpression := Equals "PrincipalId" ":u1";
       q_TableName := LeaseTableName db |} in
  let '(r, σ') := Query input σ in
  match r with
  | Err err => ((NilSlice, Some err), σ')
  | Ok resp =>
      if (length (Items resp) =? 0)%nat
      then ((NilSlice, None), σ')
      else (appendLeases (Items resp) NilSlice, σ')
  end.

(** [principalID/accountID], as the messages of [UpsertLease] name a lease. *)
Definition leaseRef (lease : Lease.t) : string :=
  Lease.PrincipalID lease +:+ "/" +:+ Lease.AccountID lease.

Definition UpsertLease (db : DB) (lease : Lease.t) (σ : DynamoDB)
    : (option Lease.t * option error) * DynamoDB :=
  if (String.length (Lease.ID lease) =? 0)%nat
  then ((None, Some (ErrorString
          ("failed to create lease for " +:+ leaseRef lease +:+ ": missing ID"))), σ)
  else if Lease.ExpiresOn lease =? 0
  then ((None, Some (ErrorString
          ("failed to create lease for " +:+ leaseRef lease +:+ ": missing ExpiresOn"))), σ)
  else
    match buildUpdateExpression
            {| obj := reflectLease lease;
               excludeFields := ["AccountID"; "PrincipalID"];
               includeFields := [] |} with
    | Err err =>
        ((None, Some (WithMessage err ("Failed to update lease " +:+ leaseRef lease))), σ)
    | Ok expr =>
        let '(r, σ') :=
          UpdateItem {| u_TableName := LeaseTableName db;
                        u_Key := <[ "AccountId" := AvS (Lease.AccountID lease) ]>
                                 {[ "PrincipalId" := AvS (Lease.PrincipalID lease) ]};
                        u_ExpressionAttributeNames := Names expr;
                        u_ExpressionAttributeValues := Values expr;
                        u_UpdateExpression := Update expr;
                        u_ConditionExpression := None;
                        u_ReturnValues := ALL_NEW |} σ in
        match r with
        | Err err =>
            let msg := "Failed to update lease " +:+ leaseRef lease in
            let msg := match awsErrCode err with
                       | Some code => msg +:+ " [" +:+ code +:+ "]"
                       | None => msg
                       end in
            ((None, Some (WithMessage err msg)), σ')
        | Ok res =>
            match unmarshalLease (Attributes res) with
            | Err err =>
                ((None, Some (WithMessage err
                                ("Failed to update lease " +:+ leaseRef lease))), σ')
            | Ok updatedLease => ((Some updatedLease, None), σ')
            end
        end
    end.

Definition quoted (s : string) : string := dquote +:+ s +:+ dquote.

Definition leaseTransitionMessage (accountID principalID : string)
    (prevStatus nextStatus : LeaseStatus) : string :=
  "unable to update lease status from " +:+ quoted prevStatus +:+ " to " +:+
  quoted nextStatus +:+ " for " +:+ accountID +:+ "/" +:+ principalID +:+
  ": no lease exists with Status=" +:+ quoted prevStatus.

Definition accountTransitionMessage (accountID : string)
    (prevStatus nextStatus : AccountStatus) : string :=
  "unable to update account status from " +:+ quoted prevStatus +:+ " to " +:+
  quoted nextStatus +:+ " for account " +:+ accountID +:+
  ": no account exists with Status=" +:+ quoted prevStatus.

(** [err.(awserr.Error)] with [aerr.Code() == "ConditionalCheckFailedException"] *)
Definition isConditionalCheckFailed (err : error) : bool :=
  match awsErrCode err with
  | Some code => String.eqb code "ConditionalCheckFailedException"
  | None => false
  end.

(** [now] and [now'] are the two readings [time.Now().Unix()] of the clock,
    in the order the request is put together. *)
Definition TransitionLeaseStatus (db : DB) (accountID principalID : string)
    (prevStatus nextStatus : LeaseStatus) (leaseStatusReason : LeaseStatusReason)
    (now now' : Z) (σ : DynamoDB)
    : (option Lease.t * option error) * DynamoDB :=
  let '(r, σ') :=
    UpdateItem
      {| u_TableName := LeaseTableName db;
         u_Key := <[ "AccountId" := AvS accountID ]>
                  {[ "PrincipalId" := AvS principalID ]};
         u_UpdateExpression :=
           [ SetTo "LeaseStatus" ":nextStatus";
             SetTo "LeaseStatusReason" ":nextStatusReason";
             SetTo "LastModifiedOn" ":lastModifiedOn";
             SetTo "LeaseStatusModifiedOn" ":leaseStatusModifiedOn" ];
         u_ExpressionAttributeNames := ∅;
         u_ExpressionAttributeValues :=
           <[ ":prevStatus" := AvS prevStatus ]>
           (<[ ":nextStatus" := AvS nextStatus ]>
           (<[ ":nextStatusReason" := AvS leaseStatusReason ]>
           (<[ ":lastModifiedOn" := AvN now ]>
           {[ ":leaseStatusModifiedOn" := AvN now' ]})));
         u_ConditionExpression := Some (Equals "LeaseStatus" ":prevStatus");
         u_ReturnValues := ALL_NEW |} σ in
  match r with
  | Err err =>
      if isConditionalCheckFailed err
      then ((None, Some (StatusTransitionError
                           (leaseTransitionMessage accountID principalID
                              prevStatus nextStatus))), σ')
      else ((None, Some err), σ')
  | Ok result => (ptrErr (unmarshalLease (Attributes result)), σ')
  end.

(** [now] is the reading [time.Now().Unix()] of the clock. *)
Definition TransitionAccountStatus (db : DB) (accountID : string)
    (prevStatus nextStatus : AccountStatus) (now : Z) (σ : DynamoDB)
    : (option Account.t * option error) * DynamoDB :=
  let '(r, σ') :=
    UpdateItem
      {| u_TableName := AccountTableName db;
         u_Key := {[ "Id" := AvS accountID ]};
         u_UpdateExpression :=
           [ SetTo "AccountStatus" ":nextStatus";
             SetTo "LastModifiedOn" ":lastModifiedOn" ];
         u_ExpressionAttributeNames := ∅;
         u_ExpressionAttributeValues :=
           <[ ":prevStatus" := AvS prevStatus ]>
           (<[ ":nextStatus" := AvS nextStatus ]>
           {[ ":lastModifiedOn" := AvN now ]});
         u_ConditionExpression := Some (Equals "AccountStatus" ":prevStatus");
         u_ReturnValues := ALL_NEW |} σ in
  match r with
  | Err err =>
      if isConditionalCheckFailed err
      then ((None, Some (StatusTransitionError
                           (accountTransitionMessage accountID prevStatus nextStatus))), σ')
      else ((None, Some err), σ')
  | Ok result => (ptrErr (unmarshalAccount (Attributes result)), σ')
  end.

(** ** A store to try the service on *)

Module Sample.
Definition db : DB :=
  {| AccountTableName := "Accounts"; LeaseTableName := "Leases";
     DefaultLeaseLengthInDays := 7; ConsistentRead := false |}.

Definition account111 : Item :=
  <[ "Id" := AvS "111" ]> (<[ "AccountStatus" := AvS "Ready" ]>
  {[ "LastModifiedOn" := AvN 1500000000 ]}).

Definition lease1 : Item :=
  <[ "AccountId" := AvS "111" ]> (<[ "PrincipalId" := AvS "u1" ]>
  (<[ "Id" := AvS "lease-1" ]> (<[ "LeaseStatus" := AvS "Active" ]>
  {[ "ExpiresOn" := AvN 1700000000 ]}))).

Definition accounts : Table :=
  {| keySchema := ["Id"];
     indexes := {[ "AccountStatus" := "AccountStatus" ]};
     rows := {[ ["111"] := account111 ]} |}.

Definition leases : Table :=
  {| keySchema := ["AccountId"; "PrincipalId"];
     indexes := <[ "LeaseId" := "Id" ]> {[ "PrincipalId" := "PrincipalId" ]};
     rows := {[ ["111"; "u1"] := lease1 ]} |}.

Definition store : DynamoDB :=
  {| tables := <[ "Accounts" := accounts ]> {[ "Leases" := leases ]};
     outage := None; calls := [] |}.
End Sample.

(** ** Requests and rows the properties speak of *)

(** The request [TransitionAccountStatus] sends. *)
Definition accountTransitionInput (db : DB) (accountID : string)
    (prevStatus nextStatus : AccountStatus) (now : Z) : UpdateItemInput :=
  {| u_TableName := AccountTableName db;
     u_Key := {[ "Id" := AvS accountID ]};
     u_UpdateExpression :=
       [ SetTo "AccountStatus" ":nextStatus";
         SetTo "LastModifiedOn" ":lastModifiedOn" ];
     u_ExpressionAttributeNames := ∅;
     u_ExpressionAttributeValues :=
       <[ ":prevStatus" := AvS prevStatus ]>
       (<[ ":nextStatus" := AvS nextStatus ]>
       {[ ":lastModifiedOn" := AvN now ]});
     u_ConditionExpression := Some (Equals "AccountStatus" ":prevStatus");
     u_ReturnValues := ALL_NEW |}.

(** The account row the update leaves when its condition holds. *)
Definition accountAfter (accountID : string) (nextStatus : AccountStatus) (now : Z)
    (stored : option Item) : Item :=
  <[ "LastModifiedOn" := AvN now ]>
    (<[ "AccountStatus" := AvS nextStatus ]>
       (default {[ "Id" := AvS accountID ]} stored)).

(** The account a successful transition returns for a stored [account]. *)
Definition accountTransitioned (account : Account.t) (nextStatus : AccountStatus)
    (now : Z) : Account.t :=
  {| Account.ID := Account.ID account; Account.Status := nextStatus;
     Account.LastModifiedOn := now; Account.CreatedOn := Account.CreatedOn account;
     Account.AdminRoleArn := Account.AdminRoleArn account;
     Account.PrincipalRoleArn := Account.PrincipalRoleArn account;
     Account.PrincipalPolicyHash := Account.PrincipalPolicyHash account;
     Account.Metadata := Account.Metadata account |}.

(** The request [TransitionLeaseStatus] sends. *)
Definition leaseTransitionInput (db : DB) (accountID principalID : string)
    (prevStatus nextStatus : LeaseStatus) (leaseStatusReason : LeaseStatusReason)
    (now now' : Z) : UpdateItemInput :=
  {| u_TableName := LeaseTableName db;
     u_Key := <[ "AccountId" := AvS accountID ]>
              {[ "PrincipalId" := AvS principalID ]};
     u_UpdateExpression :=
       [ SetTo "LeaseStatus" ":nextStatus";
         SetTo "LeaseStatusReason" ":nextStatusReason";
         SetTo "LastModifiedOn" ":lastModifiedOn";
         SetTo "LeaseStatusModifiedOn" ":leaseStatusModifiedOn" ];
     u_ExpressionAttributeNames := ∅;
     u_ExpressionAttributeValues :=
       <[ ":prevStatus" := AvS prevStatus ]>
       (<[ ":nextStatus" := AvS nextStatus ]>
       (<[ ":nextStatusReason" := AvS leaseStatusReason ]>
       (<[ ":lastModifiedOn" := AvN now ]>
       {[ ":leaseStatusModifiedOn" := AvN now' ]})));
     u_ConditionExpression := Some (Equals "LeaseStatus" ":prevStatus");
     u_ReturnValues := ALL_NEW |}.

(** The lease row the update leaves when its condition holds. *)
Definition leaseAfter (accountID principalID : string) (nextStatus : LeaseStatus)
    (leaseStatusReason : LeaseStatusReason) (now now' : Z)
    (stored : option Item) : Item :=
  <[ "LeaseStatusModifiedOn" := AvN now' ]>
    (<[ "LastModifiedOn" := AvN now ]>
       (<[ "LeaseStatusReason" := AvS leaseStatusReason ]>
          (<[ "LeaseStatus" := AvS nextStatus ]>
             (default (<[ "AccountId" := AvS accountID ]>
                         {[ "PrincipalId" := AvS principalID ]}) stored)))).

(** The lease a successful transition returns for a stored [lease]. *)
Definition leaseTransitioned (lease : Lease.t) (nextStatus : LeaseStatus)
    (leaseStatusReason : LeaseStatusReason) (now now' : Z) : Lease.t :=
  {| Lease.AccountID := Lease.AccountID lease;
     Lease.PrincipalID := Lease.PrincipalID lease;
     Lease.ID := Lease.ID lease; Lease.LeaseStatus := nextStatus;
     Lease.LeaseStatusReason := leaseStatusReason;
     Lease.LastModifiedOn := now; Lease.LeaseStatusModifiedOn := now';
     Lease.ExpiresOn := Lease.ExpiresOn lease |}.

(** [needle] occurs in [hay]. *)
Definition occursIn (needle hay : string) : Prop :=
  ∃ before after, hay = before +:+ needle +:+ after.

(** The row of an account, and of a lease, in the tables of the service. *)
Definition accountRow (db : DB) (σ : DynamoDB) (accountID : string) : option Item :=
  tbl ← tables σ !! AccountTableName db; rows tbl !! [accountID].

Definition leaseRow (db : DB) (σ : DynamoDB) (accountID principalID : string)
    : option Item :=
  tbl ← tables σ !! LeaseTableName db; rows tbl !! [accountID; principalID].

(** ** Callers at the same time

    Every method of [DB] sends one request, and the store carries out the
    requests on a row one at a time: what callers at the same time get is
    what they get served one after the other, in the order in which the
    store takes their requests. *)
Fixpoint serve {R} (requests : list (DynamoDB → R * DynamoDB)) (σ : DynamoDB)
    : list R * DynamoDB :=
  match requests with
  | [] => ([], σ)
  | call :: rest =>
      let '(r, σ') := call σ in
      let '(rs, σ'') := serve rest σ' in
      (r :: rs, σ'')
  end.

Definition succeeded {A} (out : option A * option error) : bool :=
  match out.2 with
  | None => true
  | Some _ => false
  end.

Definition gotStatusTransitionError {A} (out : option A * option error) : bool :=
  match out.2 with
  | Some (StatusTransitionError _) => true
  | _ => false
  end.

(** Exactly one of the calls succeeded and all the others got a
    [StatusTransitionError]. *)
Definition oneWinner {A} (outs : list (option A * option error)) : Prop :=
  length (List.filter succeeded outs) = 1%nat ∧
  Forall (fun out => succeeded out = false → gotStatusTransitionError out = true) outs.

(** The request is a write under a condition. *)
Definition isConditionalWrite (r : Request) : bool :=
  match r with
  | ReqUpdateItem i =>
      match u_ConditionExpression i with
      | Some _ => true
      | None => false
      end
  | _ => false
  end.

(** The requests of the read methods. *)
Definition getAccountInput (db : DB) (accountID : string) : GetItemInput :=
  {| gi_TableName := AccountTableName db;
     gi_Key := {[ "Id" := AvS accountID ]};
     gi_ConsistentRead := ConsistentRead db |}.

Definition leaseByIDInput (db : DB) (leaseID : string) : QueryInput :=
  {| q_ExpressionAttributeValues := {[ ":a1" := AvS leaseID ]};
     q_KeyConditionExpression := Equals "Id" ":a1";
     q_TableName := LeaseTableName db;
     q_IndexName := "LeaseId" |}.

(** The fields the loop of [buildUpdateExpression] does not skip. *)
Definition selected (input : buildUpdateExpressInput) (f : StructField) : bool :=
  let shouldExclude := (0 <? length (excludeFields input))%nat in
  let shouldInclude := (0 <? length (includeFields input))%nat in
  negb ((shouldExclude && containsStr (excludeFields input) (fieldName f))
        || (shouldInclude && negb (containsStr (includeFields input) (fieldName f)))).

(** The assignment of a field under its external name. *)
Definition assignment (f : StructField) : string * AttributeValue :=
  (jsonTag f, fieldVal f).

(** The assignments an update expression makes, aliases resolved. *)
Definition assignments (expr : Expression) : option (list (string * AttributeValue)) :=
  mapM (resolveSet (Names expr) (Values expr)) (Update expr).

(** What [UpsertLease] asks the builder for. *)
Definition upsertLeaseFields (lease : Lease.t) : buildUpdateExpressInput :=
  {| obj := reflectLease lease;
     excludeFields := ["AccountID"; "PrincipalID"];
     includeFields := [] |}.

(** The key of a lease row, and the request [UpsertLease] sends for an
    expression. *)
Definition leaseKey (accountID principalID : string) : Item :=
  <[ "AccountId" := AvS accountID ]> {[ "PrincipalId" := AvS principalID ]}.

Definition upsertLeaseInput (db : DB) (lease : Lease.t) (expr : Expression)
    : UpdateItemInput :=
  {| u_TableName := LeaseTableName db;
     u_Key := leaseKey (Lease.AccountID lease) (Lease.PrincipalID lease);
     u_ExpressionAttributeNames := Names expr;
     u_ExpressionAttributeValues := Values expr;
     u_UpdateExpression := Update expr;
     u_ConditionExpression := None;
     u_ReturnValues := ALL_NEW |}.

(** The integer fields of a lease are int64. *)
Definition leaseInt64 (lease : Lease.t) : Prop :=
  is_int64 (Lease.LastModifiedOn lease) = true ∧
  is_int64 (Lease.LeaseStatusModifiedOn lease) = true ∧
  is_int64 (Lease.ExpiresOn lease) = true.

(** A lease under the key of a stored one. *)
Definition leaseUnderKey (lease stored : Lease.t) : Lease.t :=
  {| Lease.AccountID := Lease.AccountID stored;
     Lease.PrincipalID := Lease.PrincipalID stored;
     Lease.ID := Lease.ID lease; Lease.LeaseStatus := Lease.LeaseStatus lease;
     Lease.LeaseStatusReason := Lease.LeaseStatusReason lease;
     Lease.LastModifiedOn := Lease.LastModifiedOn lease;
     Lease.LeaseStatusModifiedOn := Lease.LeaseStatusModifiedOn lease;
     Lease.ExpiresOn := Lease.ExpiresOn lease |}.

(** The expression [UpsertLease] builds for a lease. *)
Definition upsertExpression (lease : Lease.t) : Expression :=
  match buildUpdateExpression (upsertLeaseFields lease) with
  | Ok expr => expr
  | Err _ => {| Names := ∅; Values := ∅; Update := [] |}
  end.

Module SampleLease.
Definition lease2 : Lease.t :=
  {| Lease.AccountID := "111"; Lease.PrincipalID := "u2"; Lease.ID := "lease-2";
     Lease.LeaseStatus := "Active"; Lease.LeaseStatusReason := EmptyString;
     Lease.LastModifiedOn := 1600000000;
     Lease.LeaseStatusModifiedOn := 1600000000;
     Lease.ExpiresOn := 1700000000 |}.

Definition stored1 : Lease.t :=
  {| Lease.AccountID := "111"; Lease.PrincipalID := "u1"; Lease.ID := "lease-1";
     Lease.LeaseStatus := "Active"; Lease.LeaseStatusReason := EmptyString;
     Lease.LastModifiedOn := 0; Lease.LeaseStatusModifiedOn := 0;
     Lease.ExpiresOn := 1700000000 |}.
End SampleLease.

(** ** Further notions the properties speak of *)

(** A Go return of a pointer and an error holds one of the two. *)
Definition recordOrError {A} (out : option A * option error) : Prop :=
  (is_Some out.1 ∧ out.2 = None) ∨ (out.1 = None ∧ is_Some out.2).

(** The error [buildUpdateExpression] gives when both lists are set. *)
Definition bothListsError : error :=
  ErrorString
    ("unable to build DynDB update expression: " +:+
     "request may specify includeFields or excludeFields, but not both").

(** The request is a read. *)
Definition isRead (r : Request) : bool :=
  match r with
  | ReqGetItem _ | ReqQuery _ => true
  | ReqUpdateItem _ => false
  end.

(** The field is one the request chooses: not named in [excludeFields], and
    named in [includeFields] when that list is given. *)
Definition chosen (input : buildUpdateExpressInput) (f : StructField) : Prop :=
  (fieldName f ∉ excludeFields input) ∧
  (includeFields input = [] ∨ fieldName f ∈ includeFields input).

(** The error is one of the decoder: an [UnmarshalTypeError]. *)
Definition isUnmarshalTypeError (e : error) : Prop :=
  ∃ value type, e = UnmarshalTypeError value type.

(** From [σ] to [σ'] one request was received, a read, and nothing else
    changed. *)
Definition oneRead (σ σ' : DynamoDB) : Prop :=
  tables σ' = tables σ ∧ outage σ' = outage σ ∧
  ∃ r, calls σ' = calls σ ++ [r] ∧ isRead r = true.

(** The row under a lease key, if any, carries that key: its attributes
    [AccountId] and [PrincipalId] are the strings it is filed under, as in
    every row the store itself has created. *)
Definition filedUnderKey (tbl : Table) (accountID principalID : string) : Prop :=
  ∀ item, rows tbl !! [accountID; principalID] = Some item →
          item !! "AccountId" = Some (AvS accountID) ∧
          item !! "PrincipalId" = Some (AvS principalID).

(** The row [UpsertLease] leaves for a lease where [stored] was. *)
Definition leaseUpserted (lease : Lease.t) (stored : option Item) : Item :=
  applySet
    (map assignment
       (List.filter (selected (upsertLeaseFields lease)) (reflectLease lease)))
    (default (leaseKey (Lease.AccountID lease) (Lease.PrincipalID lease)) stored).

(** A lease [UpsertLease] accepts, with integer fields that are int64. *)
Definition validLease (lease : Lease.t) : Prop :=
  Lease.ID lease ≠ EmptyString ∧ Lease.ExpiresOn lease ≠ 0 ∧ leaseInt64 lease.

(** From [σ] to [σ'] nothing changed in the tables but, at most, the row
    under [key] of the table [name] (taken to have the key schema
    [schema]): the other tables, the schema and indexes of that table and
    its other rows are the same, and so is the health of the store. *)
Definition onlyRow (name : string) (schema key : list string) (σ σ' : DynamoDB) : Prop :=
  outage σ' = outage σ ∧
  (∀ other, other ≠ name → tables σ' !! other = tables σ !! other) ∧
  (∀ tbl, tables σ !! name = Some tbl → keySchema tbl = schema →
          ∃ tbl', tables σ' !! name = Some tbl' ∧
                  keySchema tbl' = keySchema tbl ∧ indexes tbl' = indexes tbl ∧
                  ∀ key', key' ≠ key → rows tbl' !! key' = rows tbl !! key').

(** The rows decode, one by one, to the records. *)
Definition decodeAll {A} (unmarshal : Item → result A) (items : list Item)
    (records : list A) : Prop :=
  Forall2 (fun item record => unmarshal item = Ok record) items records.

(** A store with rows that do not decode: an account whose [CreatedOn] is a
    string, a lease whose [ExpiresOn] is a string. *)
Module Damaged.
Definition account222 : Item :=
  <[ "Id" := AvS "222" ]> (<[ "AccountStatus" := AvS "Ready" ]>
  {[ "CreatedOn" := AvS "yesterday" ]}).

Definition lease9 : Item :=
  <[ "AccountId" := AvS "222" ]> (<[ "PrincipalId" := AvS "u9" ]>
  (<[ "Id" := AvS "lease-9" ]> {[ "ExpiresOn" := AvS "tomorrow" ]})).

Definition accounts : Table :=
  {| keySchema := ["Id"];
     indexes := {[ "AccountStatus" := "AccountStatus" ]};
     rows := {[ ["222"] := account222 ]} |}.

Definition leases : Table :=
  {| keySchema := ["AccountId"; "PrincipalId"];
     indexes := <[ "LeaseId" := "Id" ]> {[ "PrincipalId" := "PrincipalId" ]};
     rows := {[ ["222"; "u9"] := lease9 ]} |}.

Definition store : DynamoDB :=
  {| tables := <[ "Accounts" := accounts ]> {[ "Leases" := leases ]};
     outage := None; calls := [] |}.
End Damaged.


(** * Properties *)

(** ** The store *)

Lemma av_eqb_S (v : AttributeValue) (s : string) :
  av_eqb v (AvS s) = true ↔ v = AvS s.
Proof.
  destruct v as [t| | | |]; simpl; split; try discriminate.
  - intros H. apply String.eqb_eq in H. by subst.
  - intros [= ->]. apply String.eqb_refl.
Qed.

(** A comparison with an S operand holds of a row exactly when the row is
    there and carries the attribute with that very value. *)
Lemma holds_S (name s : string) (stored : option Item) :
  holds (name, AvS s) stored = true ↔
  ∃ item, stored = Some item ∧ item !! name = Some (AvS s).
Proof.
  unfold holds. destruct stored as [item|]; simpl.
  - destruct (item !! name) as [v|] eqn:E.
    + rewrite av_eqb_S. split.
      * intros ->. by exists item.
      * intros (? & [= <-] & H). congruence.
    + split; [discriminate|]. intros (? & [= <-] & H). congruence.
  - split; [discriminate|]. by intros (? & ? & _).
Qed.

Lemma holds_S_absent (name s : string) : holds (name, AvS s) None = false.
Proof. reflexivity. Qed.

Lemma holds_S_differs (name s : string) (item : Item) :
  item !! name ≠ Some (AvS s) → holds (name, AvS s) (Some item) = false.
Proof.
  intros H. apply not_true_is_false. rewrite holds_S.
  intros (? & [= <-] & ?). contradiction.
Qed.

Lemma holds_S_same (name s : string) (item : Item) :
  item !! name = Some (AvS s) → holds (name, AvS s) (Some item) = true.
Proof. intros H. apply holds_S. by exists item. Qed.


Lemma keyOf_lease (accountID principalID : string) :
  keyOf ["AccountId"; "PrincipalId"]
    (<[ "AccountId" := AvS accountID ]> {[ "PrincipalId" := AvS principalID ]})
  = Some [accountID; principalID].
Proof. reflexivity. Qed.

(** A healthy store that has the table answers an update with what
    [updateRow] decides. *)
Lemma UpdateItem_healthy (input : UpdateItemInput) (σ : DynamoDB) (tbl : Table) :
  outage σ = None →
  tables σ !! u_TableName input = Some tbl →
  UpdateItem input σ =
    match updateRow tbl input with
    | Ok (attrs, tbl') =>
        (Ok {| Attributes := attrs |},
         withTable (u_TableName input) tbl' (received (ReqUpdateItem input) σ))
    | Err e => (Err e, received (ReqUpdateItem input) σ)
    end.
Proof. intros Hup Htbl. unfold UpdateItem. by rewrite Hup, Htbl. Qed.

(** Every call of the client is recorded, and a call that fails leaves the
    tables as they are. *)
Lemma UpdateItem_calls (input : UpdateItemInput) (σ : DynamoDB) :
  calls (UpdateItem input σ).2 = calls σ ++ [ReqUpdateItem input].
Proof.
  unfold UpdateItem. destruct (outage σ); [done|].
  destruct (tables σ !! u_TableName input); [|done].
  by destruct (updateRow _ input) as [[? ?]|].
Qed.

Lemma UpdateItem_Err_tables (input : UpdateItemInput) (σ : DynamoDB) (e : error) :
  (UpdateItem input σ).1 = Err e → tables (UpdateItem input σ).2 = tables σ.
Proof.
  unfold UpdateItem. destruct (outage σ); [done|].
  destruct (tables σ !! u_TableName input); [|done].
  by destruct (updateRow _ input) as [[? ?]|].
Qed.

Lemma GetItem_calls (input : GetItemInput) (σ : DynamoDB) :
  (GetItem input σ).2 = received (ReqGetItem input) σ.
Proof.
  unfold GetItem. destruct (outage σ); [done|].
  by destruct (tables σ !! gi_TableName input).
Qed.

Lemma Query_calls (input : QueryInput) (σ : DynamoDB) :
  (Query input σ).2 = received (ReqQuery input) σ.
Proof.
  unfold Query. destruct (outage σ); [done|].
  by destruct (tables σ !! q_TableName input).
Qed.

(** ** Status transitions of accounts *)

Section AccountTransition.
Context (db : DB) (accountID : string) (prevStatus nextStatus : AccountStatus).
Context (now : Z).

Local Abbreviation input := (accountTransitionInput db accountID prevStatus nextStatus now).
Local Abbreviation after := (accountAfter accountID nextStatus now).

Lemma updateRow_accountTransition (tbl : Table) :
  keySchema tbl = ["Id"] →
  updateRow tbl input =
    if holds ("AccountStatus", AvS prevStatus) (rows tbl !! [accountID])
    then Ok (after (rows tbl !! [accountID]),
             withRows tbl (<[ [accountID] := after (rows tbl !! [accountID]) ]> (rows tbl)))
    else Err ConditionalCheckFailedException.
Proof. intros Hschema. unfold updateRow. rewrite Hschema. reflexivity. Qed.

Lemma TransitionAccountStatus_unfold (σ : DynamoDB) :
  TransitionAccountStatus db accountID prevStatus nextStatus now σ =
    let '(r, σ') := UpdateItem input σ in
    match r with
    | Err err =>
        if isConditionalCheckFailed err
        then ((None, Some (StatusTransitionError
                (accountTransitionMessage accountID prevStatus nextStatus))), σ')
        else ((None, Some err), σ')
    | Ok result => (ptrErr (unmarshalAccount (Attributes result)), σ')
    end.
Proof. reflexivity. Qed.

(** The guard fails: a [StatusTransitionError], and the tables are as
    they were. *)
Lemma TransitionAccountStatus_guard_fails (σ : DynamoDB) (tbl : Table) :
  outage σ = None →
  tables σ !! AccountTableName db = Some tbl →
  keySchema tbl = ["Id"] →
  holds ("AccountStatus", AvS prevStatus) (rows tbl !! [accountID]) = false →
  TransitionAccountStatus db accountID prevStatus nextStatus now σ =
    ((None, Some (StatusTransitionError
                    (accountTransitionMessage accountID prevStatus nextStatus))),
     received (ReqUpdateItem input) σ).
Proof.
  intros Hup Htbl Hschema Hguard.
  rewrite TransitionAccountStatus_unfold.
  rewrite (UpdateItem_healthy input σ tbl Hup Htbl).
  rewrite (updateRow_accountTransition tbl Hschema), Hguard.
  reflexivity.
Qed.

(** The guard holds: the row is rewritten and decoded. *)
Lemma TransitionAccountStatus_guard_holds (σ : DynamoDB) (tbl : Table) :
  outage σ = None →
  tables σ !! AccountTableName db = Some tbl →
  keySchema tbl = ["Id"] →
  holds ("AccountStatus", AvS prevStatus) (rows tbl !! [accountID]) = true →
  TransitionAccountStatus db accountID prevStatus nextStatus now σ =
    (ptrErr (unmarshalAccount (after (rows tbl !! [accountID]))),
     withTable (AccountTableName db)
       (withRows tbl (<[ [accountID] := after (rows tbl !! [accountID]) ]> (rows tbl)))
       (received (ReqUpdateItem input) σ)).
Proof.
  intros Hup Htbl Hschema Hguard.
  rewrite TransitionAccountStatus_unfold.
  rewrite (UpdateItem_healthy input σ tbl Hup Htbl).
  rewrite (updateRow_accountTransition tbl Hschema), Hguard.
  reflexivity.
Qed.
End AccountTransition.

(** ** Decoding a row after an update *)

Lemma decodeString_insert_ne (item : Item) (k n : string) (v : AttributeValue) :
  k ≠ n → decodeString (<[ k := v ]> item) n = decodeString item n.
Proof. intros H. unfold decodeString. by rewrite lookup_insert_ne. Qed.

Lemma decodeInt64_insert_ne (item : Item) (k n : string) (v : AttributeValue) :
  k ≠ n → decodeInt64 (<[ k := v ]> item) n = decodeInt64 item n.
Proof. intros H. unfold decodeInt64. by rewrite lookup_insert_ne. Qed.

Lemma decodeMap_insert_ne (item : Item) (k n : string) (v : AttributeValue) :
  k ≠ n → decodeMap (<[ k := v ]> item) n = decodeMap item n.
Proof. intros H. unfold decodeMap. by rewrite lookup_insert_ne. Qed.

Lemma decodeString_insert_S (item : Item) (n s : string) :
  decodeString (<[ n := AvS s ]> item) n = Ok s.
Proof. unfold decodeString. by rewrite lookup_insert_eq. Qed.

Lemma decodeInt64_insert_N (item : Item) (n : string) (z : Z) :
  is_int64 z = true → decodeInt64 (<[ n := AvN z ]> item) n = Ok z.
Proof. intros H. unfold decodeInt64. by rewrite lookup_insert_eq, H. Qed.

Lemma decodeString_S (item : Item) (n s : string) :
  item !! n = Some (AvS s) → decodeString item n = Ok s.
Proof. intros H. unfold decodeString. by rewrite H. Qed.

Ltac decode_after :=
  repeat first
    [ rewrite decodeString_insert_S
    | rewrite decodeInt64_insert_N by assumption
    | rewrite decodeString_insert_ne by done
    | rewrite decodeInt64_insert_ne by done
    | rewrite decodeMap_insert_ne by done ].

Ltac decoded H :=
  repeat match type of H with
         | context [decodeString ?i ?n] =>
             destruct (decodeString i n); simpl in H |- *; [|discriminate H]
         | context [decodeInt64 ?i ?n] =>
             destruct (decodeInt64 i n); simpl in H |- *; [|discriminate H]
         | context [decodeMap ?i ?n] =>
             destruct (decodeMap i n); simpl in H |- *; [|discriminate H]
         end.

Lemma unmarshalAccount_after (item : Item) (account : Account.t)
    (accountID : string) (nextStatus : AccountStatus) (now : Z) :
  unmarshalAccount item = Ok account →
  is_int64 now = true →
  unmarshalAccount (accountAfter accountID nextStatus now (Some item))
  = Ok (accountTransitioned account nextStatus now).
Proof.
  intros H Hnow.
  unfold unmarshalAccount, UnmarshalMapAccount, accountAfter in *. simpl default.
  decode_after. decoded H.
  injection H as <-. reflexivity.
Qed.

Lemma unmarshalLease_after (item : Item) (lease : Lease.t)
    (accountID principalID : string) (nextStatus : LeaseStatus)
    (reason : LeaseStatusReason) (now now' : Z) :
  unmarshalLease item = Ok lease →
  is_int64 now = true → is_int64 now' = true →
  unmarshalLease (leaseAfter accountID principalID nextStatus reason now now' (Some item))
  = Ok (leaseTransitioned lease nextStatus reason now now').
Proof.
  intros H Hnow Hnow'.
  unfold unmarshalLease, UnmarshalMapLease, leaseAfter in *. simpl default.
  decode_after. decoded H.
  injection H as <-. reflexivity.
Qed.

(** The stored status of a decoded row is the status of the record. *)
Lemma unmarshalAccount_Status (item : Item) (account : Account.t) (s : string) :
  unmarshalAccount item = Ok account →
  item !! "AccountStatus" = Some (AvS s) →
  Account.Status account = s.
Proof.
  intros H Hs. unfold unmarshalAccount, UnmarshalMapAccount in H.
  rewrite (decodeString_S item "AccountStatus" s Hs) in H.
  decoded H. by injection H as <-.
Qed.

(** ** Status transitions of leases *)

Section LeaseTransition.
Context (db : DB) (accountID principalID : string).
Context (prevStatus nextStatus : LeaseStatus) (reason : LeaseStatusReason).
Context (now now' : Z).

Local Abbreviation input :=
  (leaseTransitionInput db accountID principalID prevStatus nextStatus reason now now').
Local Abbreviation after :=
  (leaseAfter accountID principalID nextStatus reason now now').

Lemma updateRow_leaseTransition (tbl : Table) :
  keySchema tbl = ["AccountId"; "PrincipalId"] →
  updateRow tbl input =
    if holds ("LeaseStatus", AvS prevStatus) (rows tbl !! [accountID; principalID])
    then Ok (after (rows tbl !! [accountID; principalID]),
             withRows tbl (<[ [accountID; principalID] :=
                                after (rows tbl !! [accountID; principalID]) ]> (rows tbl)))
    else Err ConditionalCheckFailedException.
Proof. intros Hschema. unfold updateRow. rewrite Hschema. reflexivity. Qed.

Lemma TransitionLeaseStatus_unfold (σ : DynamoDB) :
  TransitionLeaseStatus db accountID principalID prevStatus nextStatus reason now now' σ =
    let '(r, σ') := UpdateItem input σ in
    match r with
    | Err err =>
        if isConditionalCheckFailed err
        then ((None, Some (StatusTransitionError
                (leaseTransitionMessage accountID principalID prevStatus nextStatus))), σ')
        else ((None, Some err), σ')
    | Ok result => (ptrErr (unmarshalLease (Attributes result)), σ')
    end.
Proof. reflexivity. Qed.

Lemma TransitionLeaseStatus_guard_fails (σ : DynamoDB) (tbl : Table) :
  outage σ = None →
  tables σ !! LeaseTableName db = Some tbl →
  keySchema tbl = ["AccountId"; "PrincipalId"] →
  holds ("LeaseStatus", AvS prevStatus) (rows tbl !! [accountID; principalID]) = false →
  TransitionLeaseStatus db accountID principalID prevStatus nextStatus reason now now' σ =
    ((None, Some (StatusTransitionError
                    (leaseTransitionMessage accountID principalID prevStatus nextStatus))),
     received (ReqUpdateItem input) σ).
Proof.
  intros Hup Htbl Hschema Hguard.
  rewrite TransitionLeaseStatus_unfold.
  rewrite (UpdateItem_healthy input σ tbl Hup Htbl).
  rewrite (updateRow_leaseTransition tbl Hschema), Hguard.
  reflexivity.
Qed.

Lemma TransitionLeaseStatus_guard_holds (σ : DynamoDB) (tbl : Table) :
  outage σ = None →
  tables σ !! LeaseTableName db = Some tbl →
  keySchema tbl = ["AccountId"; "PrincipalId"] →
  holds ("LeaseStatus", AvS prevStatus) (rows tbl !! [accountID; principalID]) = true →
  TransitionLeaseStatus db accountID principalID prevStatus nextStatus reason now now' σ =
    (ptrErr (unmarshalLease (after (rows tbl !! [accountID; principalID]))),
     withTable (LeaseTableName db)
       (withRows tbl (<[ [accountID; principalID] :=
                           after (rows tbl !! [accountID; principalID]) ]> (rows tbl)))
       (received (ReqUpdateItem input) σ)).
Proof.
  intros Hup Htbl Hschema Hguard.
  rewrite TransitionLeaseStatus_unfold.
  rewrite (UpdateItem_healthy input σ tbl Hup Htbl).
  rewrite (updateRow_leaseTransition tbl Hschema), Hguard.
  reflexivity.
Qed.
End LeaseTransition.

(** A failure of the store itself, other than a failed condition, reaches
    the caller as it is. *)
Lemma TransitionAccountStatus_store_failure (db : DB) (accountID : string)
    (prevStatus nextStatus : AccountStatus) (now : Z) (σ : DynamoDB) (e : error) :
  outage σ = Some e →
  isConditionalCheckFailed e = false →
  (TransitionAccountStatus db accountID prevStatus nextStatus now σ).1 = (None, Some e).
Proof.
  intros Hout Hcode. rewrite TransitionAccountStatus_unfold.
  unfold UpdateItem. rewrite Hout. by rewrite Hcode.
Qed.

Lemma TransitionLeaseStatus_store_failure (db : DB) (accountID principalID : string)
    (prevStatus nextStatus : LeaseStatus) (reason : LeaseStatusReason)
    (now now' : Z) (σ : DynamoDB) (e : error) :
  outage σ = Some e →
  isConditionalCheckFailed e = false →
  (TransitionLeaseStatus db accountID principalID prevStatus nextStatus reason now now' σ).1
  = (None, Some e).
Proof.
  intros Hout Hcode. rewrite TransitionLeaseStatus_unfold.
  unfold UpdateItem. rewrite Hout. by rewrite Hcode.
Qed.

(** ** What the messages name *)

Lemma string_app_assoc (a b c : string) : (a +:+ b) +:+ c = a +:+ b +:+ c.
Proof.
  induction a as [|x a IH]; [reflexivity|].
  change (String x ((a +:+ b) +:+ c) = String x (a +:+ b +:+ c)).
  by f_equal.
Qed.

Lemma occursIn_here (s rest : string) : occursIn s (s +:+ rest).
Proof. by exists EmptyString, rest. Qed.

Lemma occursIn_skip (s before hay : string) :
  occursIn s hay → occursIn s (before +:+ hay).
Proof.
  intros (b & a & ->). exists (before +:+ b), a. by rewrite string_app_assoc.
Qed.

Lemma occursIn_quoted (s rest : string) : occursIn s (quoted s +:+ rest).
Proof.
  unfold quoted. rewrite !string_app_assoc.
  apply occursIn_skip, occursIn_here.
Qed.

Lemma accountTransitionMessage_names (accountID : string)
    (prevStatus nextStatus : AccountStatus) :
  let msg := accountTransitionMessage accountID prevStatus nextStatus in
  occursIn accountID msg ∧ occursIn prevStatus msg ∧ occursIn nextStatus msg.
Proof.
  unfold accountTransitionMessage. split_and!.
  - do 5 apply occursIn_skip. apply occursIn_here.
  - apply occursIn_skip, occursIn_quoted.
  - do 3 apply occursIn_skip. apply occursIn_quoted.
Qed.

Lemma leaseTransitionMessage_names (accountID principalID : string)
    (prevStatus nextStatus : LeaseStatus) :
  let msg := leaseTransitionMessage accountID principalID prevStatus nextStatus in
  occursIn accountID msg ∧ occursIn principalID msg ∧
  occursIn prevStatus msg ∧ occursIn nextStatus msg.
Proof.
  unfold leaseTransitionMessage. split_and!.
  - do 5 apply occursIn_skip. apply occursIn_here.
  - do 7 apply occursIn_skip. apply occursIn_here.
  - apply occursIn_skip, occursIn_quoted.
  - do 3 apply occursIn_skip. apply occursIn_quoted.
Qed.

(** ** The transition contracts *)

(** C1.  A transition whose expected status is not the stored one fails
    with a [StatusTransitionError], whatever the next status: for an account
    and for a lease, when the row exists and its status attribute is not
    [prevStatus], the call returns no record and a [StatusTransitionError]
    whose text names the ids and both statuses of the attempt.  That error
    is not a store error ([awserr.Error]); a failure of the store with
    another code is returned as it is. *)
Theorem transition_status_mismatch :
  (∀ (db : DB) (σ : DynamoDB) (tbl : Table) (item : Item) (accountID : string)
     (prevStatus nextStatus : AccountStatus) (now : Z),
     outage σ = None →
     tables σ !! AccountTableName db = Some tbl →
     keySchema tbl = ["Id"] →
     rows tbl !! [accountID] = Some item →
     item !! "AccountStatus" ≠ Some (AvS prevStatus) →
     let msg := accountTransitionMessage accountID prevStatus nextStatus in
     (TransitionAccountStatus db accountID prevStatus nextStatus now σ).1
       = (None, Some (StatusTransitionError msg)) ∧
     occursIn accountID msg ∧ occursIn prevStatus msg ∧ occursIn nextStatus msg ∧
     awsErrCode (StatusTransitionError msg) = None)
  ∧
  (∀ (db : DB) (σ : DynamoDB) (tbl : Table) (item : Item)
     (accountID principalID : string) (prevStatus nextStatus : LeaseStatus)
     (reason : LeaseStatusReason) (now now' : Z),
     outage σ = None →
     tables σ !! LeaseTableName db = Some tbl →
     keySchema tbl = ["AccountId"; "PrincipalId"] →
     rows tbl !! [accountID; principalID] = Some item →
     item !! "LeaseStatus" ≠ Some (AvS prevStatus) →
     let msg := leaseTransitionMessage accountID principalID prevStatus nextStatus in
     (TransitionLeaseStatus db accountID principalID prevStatus nextStatus reason
        now now' σ).1
       = (None, Some (StatusTransitionError msg)) ∧
     occursIn accountID msg ∧ occursIn principalID msg ∧
     occursIn prevStatus msg ∧ occursIn nextStatus msg ∧
     awsErrCode (StatusTransitionError msg) = None)
  ∧
  (∀ (db : DB) (σ : DynamoDB) (e : error) (accountID principalID : string)
     (prevStatus nextStatus reason : string) (now now' : Z),
     outage σ = Some e →
     isConditionalCheckFailed e = false →
     (TransitionAccountStatus db accountID prevStatus nextStatus now σ).1
       = (None, Some e) ∧
     (TransitionLeaseStatus db accountID principalID prevStatus nextStatus reason
        now now' σ).1
       = (None, Some e)).
Proof.
  split_and!.
  - intros db σ tbl item accountID prevStatus nextStatus now Hup Htbl Hschema Hrow Hne msg.
    rewrite (TransitionAccountStatus_guard_fails db accountID prevStatus nextStatus
               now σ tbl Hup Htbl Hschema).
    + split; [reflexivity|].
      destruct (accountTransitionMessage_names accountID prevStatus nextStatus)
        as (? & ? & ?).
      by split_and!.
    + rewrite Hrow. by apply holds_S_differs.
  - intros db σ tbl item accountID principalID prevStatus nextStatus reason now now'
      Hup Htbl Hschema Hrow Hne msg.
    rewrite (TransitionLeaseStatus_guard_fails db accountID principalID prevStatus
               nextStatus reason now now' σ tbl Hup Htbl Hschema).
    + split; [reflexivity|].
      destruct (leaseTransitionMessage_names accountID principalID prevStatus nextStatus)
        as (? & ? & ? & ?).
      by split_and!.
    + rewrite Hrow. by apply holds_S_differs.
  - intros. split.
    + by apply TransitionAccountStatus_store_failure.
    + by apply TransitionLeaseStatus_store_failure.
Qed.

(** On the sample store: account 111 is [Ready], not [Leased], and lease
    111/u1 is [Active], not [Inactive]. *)
Lemma transition_status_mismatch_witness :
  (TransitionAccountStatus Sample.db "111" "Leased" "Ready" 1600000000 Sample.store).1
    = (None, Some (StatusTransitionError
                     (accountTransitionMessage "111" "Leased" "Ready")))
  ∧ (TransitionLeaseStatus Sample.db "111" "u1" "Inactive" "Active" "Renewed"
       1600000000 1600000001 Sample.store).1
    = (None, Some (StatusTransitionError
                     (leaseTransitionMessage "111" "u1" "Inactive" "Active"))).
Proof.
  destruct transition_status_mismatch as (Hacct & Hlease & _).
  split.
  - refine (proj1 (Hacct Sample.db Sample.store Sample.accounts Sample.account111
                     "111" "Leased" "Ready" 1600000000 _ _ _ _ _)).
    all: try reflexivity.
    vm_compute. discriminate.
  - refine (proj1 (Hlease Sample.db Sample.store Sample.leases Sample.lease1
                     "111" "u1" "Inactive" "Active" "Renewed" 1600000000 1600000001
                     _ _ _ _ _)).
    all: try reflexivity.
    vm_compute. discriminate.
Defined.

(** C2.  A transition of an account whose stored status is [prevStatus]
    succeeds: the call returns the record of the row as it is after the
    write, with [Status = nextStatus] and [LastModifiedOn] set to the time
    of the call and every other field as stored; in the table the row has
    the new status and time, its other attributes and all other rows are
    unchanged. *)
Theorem TransitionAccountStatus_succeeds
    (db : DB) (σ : DynamoDB) (tbl : Table) (item : Item) (account : Account.t)
    (accountID : string) (prevStatus nextStatus : AccountStatus) (now : Z) :
  outage σ = None →
  tables σ !! AccountTableName db = Some tbl →
  keySchema tbl = ["Id"] →
  rows tbl !! [accountID] = Some item →
  unmarshalAccount item = Ok account →
  item !! "AccountStatus" = Some (AvS prevStatus) →
  is_int64 now = true →
  let out := TransitionAccountStatus db accountID prevStatus nextStatus now σ in
  out.1 = (Some (accountTransitioned account nextStatus now), None) ∧
  Account.Status (accountTransitioned account nextStatus now) = nextStatus ∧
  Account.LastModifiedOn (accountTransitioned account nextStatus now) = now ∧
  ∃ tbl' item',
    tables out.2 !! AccountTableName db = Some tbl' ∧
    rows tbl' !! [accountID] = Some item' ∧
    item' !! "AccountStatus" = Some (AvS nextStatus) ∧
    item' !! "LastModifiedOn" = Some (AvN now) ∧
    (∀ name, name ≠ "AccountStatus" → name ≠ "LastModifiedOn" →
             item' !! name = item !! name) ∧
    (∀ key, key ≠ [accountID] → rows tbl' !! key = rows tbl !! key) ∧
    unmarshalAccount item' = Ok (accountTransitioned account nextStatus now).
Proof.
  intros Hup Htbl Hschema Hrow Hacct Hstatus Hnow out. subst out.
  rewrite (TransitionAccountStatus_guard_holds db accountID prevStatus nextStatus
             now σ tbl Hup Htbl Hschema)
    by (rewrite Hrow; by apply holds_S_same).
  rewrite Hrow.
  rewrite (unmarshalAccount_after item account accountID nextStatus now Hacct Hnow).
  split_and!; try reflexivity.
  eexists _, _. split_and!.
  - simpl. apply lookup_insert_eq.
  - simpl. apply lookup_insert_eq.
  - unfold accountAfter. by simplify_map_eq.
  - unfold accountAfter. by simplify_map_eq.
  - intros name H1 H2. unfold accountAfter. simpl. by simplify_map_eq.
  - intros key Hkey. simpl. by rewrite lookup_insert_ne.
  - by apply unmarshalAccount_after.
Qed.

(** On the sample store: account 111 goes from [Ready] to [Leased]. *)
Lemma TransitionAccountStatus_succeeds_witness :
  (TransitionAccountStatus Sample.db "111" "Ready" "Leased" 1600000000 Sample.store).1
  = (Some {| Account.ID := "111"; Account.Status := "Leased";
             Account.LastModifiedOn := 1600000000; Account.CreatedOn := 0;
             Account.AdminRoleArn := EmptyString;
             Account.PrincipalRoleArn := EmptyString;
             Account.PrincipalPolicyHash := EmptyString;
             Account.Metadata := [] |}, None).
Proof.
  refine (proj1 (TransitionAccountStatus_succeeds Sample.db Sample.store
                   Sample.accounts Sample.account111
                   {| Account.ID := "111"; Account.Status := "Ready";
                      Account.LastModifiedOn := 1500000000; Account.CreatedOn := 0;
                      Account.AdminRoleArn := EmptyString;
                      Account.PrincipalRoleArn := EmptyString;
                      Account.PrincipalPolicyHash := EmptyString;
                      Account.Metadata := [] |}
                   "111" "Ready" "Leased" 1600000000 _ _ _ _ _ _ _)).
  all: reflexivity.
Defined.

(** C10.  A transition for a key under which the table has no row fails
    with a [StatusTransitionError], the condition being false of a row that
    does not exist: the call returns no record and that error, not a
    not-found result, and the tables are left as they were; for accounts
    and for leases. *)
Theorem transition_of_absent_record :
  (∀ (db : DB) (σ : DynamoDB) (tbl : Table) (accountID : string)
     (prevStatus nextStatus : AccountStatus) (now : Z),
     outage σ = None →
     tables σ !! AccountTableName db = Some tbl →
     keySchema tbl = ["Id"] →
     rows tbl !! [accountID] = None →
     let out := TransitionAccountStatus db accountID prevStatus nextStatus now σ in
     out.1 = (None, Some (StatusTransitionError
                            (accountTransitionMessage accountID prevStatus nextStatus))) ∧
     tables out.2 = tables σ)
  ∧
  (∀ (db : DB) (σ : DynamoDB) (tbl : Table) (accountID principalID : string)
     (prevStatus nextStatus : LeaseStatus) (reason : LeaseStatusReason) (now now' : Z),
     outage σ = None →
     tables σ !! LeaseTableName db = Some tbl →
     keySchema tbl = ["AccountId"; "PrincipalId"] →
     rows tbl !! [accountID; principalID] = None →
     let out := TransitionLeaseStatus db accountID principalID prevStatus nextStatus
                  reason now now' σ in
     out.1 = (None, Some (StatusTransitionError
                            (leaseTransitionMessage accountID principalID
                               prevStatus nextStatus))) ∧
     tables out.2 = tables σ).
Proof.
  split.
  - intros db σ tbl accountID prevStatus nextStatus now Hup Htbl Hschema Hrow out.
    subst out.
    rewrite (TransitionAccountStatus_guard_fails db accountID prevStatus nextStatus
               now σ tbl Hup Htbl Hschema); [done|].
    by rewrite Hrow.
  - intros db σ tbl accountID principalID prevStatus nextStatus reason now now'
      Hup Htbl Hschema Hrow out.
    subst out.
    rewrite (TransitionLeaseStatus_guard_fails db accountID principalID prevStatus
               nextStatus reason now now' σ tbl Hup Htbl Hschema); [done|].
    by rewrite Hrow.
Qed.

(** On the sample store: there is no account 999 and no lease 999/u9. *)
Lemma transition_of_absent_record_witness :
  (TransitionAccountStatus Sample.db "999" "Ready" "Leased" 1600000000 Sample.store).1
    = (None, Some (StatusTransitionError (accountTransitionMessage "999" "Ready" "Leased")))
  ∧ (TransitionLeaseStatus Sample.db "999" "u9" "Active" "Inactive" "Expired"
       1600000000 1600000001 Sample.store).1
    = (None, Some (StatusTransitionError
                     (leaseTransitionMessage "999" "u9" "Active" "Inactive"))).
Proof.
  destruct transition_of_absent_record as (Hacct & Hlease).
  split.
  - refine (proj1 (Hacct Sample.db Sample.store Sample.accounts "999" "Ready" "Leased"
                     1600000000 _ _ _ _)); reflexivity.
  - refine (proj1 (Hlease Sample.db Sample.store Sample.leases "999" "u9" "Active"
                     "Inactive" "Expired" 1600000000 1600000001 _ _ _ _)); reflexivity.
Defined.

(** ** Callers at the same time *)

Section SameTransition.
Context (db : DB) (accountID : string) (prevStatus nextStatus : AccountStatus).

Local Abbreviation call := (TransitionAccountStatus db accountID prevStatus nextStatus).
Local Abbreviation request :=
  (fun now => ReqUpdateItem (accountTransitionInput db accountID prevStatus nextStatus now)).
Local Abbreviation refused :=
  (@pair (option Account.t) (option error) None
     (Some (StatusTransitionError
              (accountTransitionMessage accountID prevStatus nextStatus)))).

(** Each call is one request, a write under a condition. *)
Lemma TransitionAccountStatus_calls (now : Z) (σ : DynamoDB) :
  calls (call now σ).2 = calls σ ++ [request now].
Proof.
  rewrite TransitionAccountStatus_unfold.
  pose proof (UpdateItem_calls
                (accountTransitionInput db accountID prevStatus nextStatus now) σ) as H.
  destruct (UpdateItem _ σ) as [[out|e] σ']; simpl in *; [done|].
  by destruct (isConditionalCheckFailed e).
Qed.

Lemma serve_calls (clock : list Z) (σ : DynamoDB) :
  calls (serve (map call clock) σ).2 = calls σ ++ map request clock.
Proof.
  revert σ. induction clock as [|now clock IH]; intros σ; simpl.
  - by rewrite app_nil_r.
  - pose proof (TransitionAccountStatus_calls now σ) as H.
    destruct (call now σ) as [r σ'] eqn:E. simpl in H.
    specialize (IH σ'). destruct (serve (map call clock) σ') as [rs σ''].
    simpl in *. rewrite IH, H. by rewrite <- app_assoc.
Qed.

(** Once the stored status is not [prevStatus], every caller is refused
    and the tables stay as they are. *)
Lemma serve_all_refused (clock : list Z) (σ : DynamoDB) (tbl : Table) :
  outage σ = None →
  tables σ !! AccountTableName db = Some tbl →
  keySchema tbl = ["Id"] →
  holds ("AccountStatus", AvS prevStatus) (rows tbl !! [accountID]) = false →
  (serve (map call clock) σ).1 = map (fun _ => refused) clock ∧
  tables (serve (map call clock) σ).2 = tables σ.
Proof.
  revert σ. induction clock as [|now clock IH]; intros σ Hup Htbl Hschema Hguard.
  - done.
  - simpl.
    rewrite (TransitionAccountStatus_guard_fails db accountID prevStatus nextStatus
               now σ tbl Hup Htbl Hschema Hguard).
    destruct (IH (received (request now) σ) Hup Htbl Hschema Hguard) as [IH1 IH2].
    destruct (serve (map call clock) _) as [rs σ'']. simpl in *.
    by rewrite IH1, IH2.
Qed.
End SameTransition.

Lemma Forall_map_all {A B} (P : B → Prop) (f : A → B) (l : list A) :
  (∀ x, P (f x)) → Forall P (map f l).
Proof. intros H. induction l; simpl; by constructor. Qed.

Lemma oneWinner_first {A B} (a : A) (e : error) (others : list B) :
  gotStatusTransitionError (@pair (option A) _ None (Some e)) = true →
  oneWinner ((Some a, None) :: map (fun _ => (None, Some e)) others).
Proof.
  intros He. split.
  - simpl. f_equal. induction others as [|b others IH]; [done|]. by simpl.
  - constructor; [done|]. apply Forall_map_all. by intros _ _.
Qed.

(** C3, as the code has it.  Callers of the same transition of an account
    stored with status [prevStatus], with [nextStatus] another status than
    [prevStatus]: the caller the store serves first succeeds and every
    other one gets a [StatusTransitionError], so exactly one succeeds; and
    each call is a single request to the store, a write under a condition,
    never a read. *)
Theorem same_transition_one_winner
    (db : DB) (σ : DynamoDB) (tbl : Table) (item : Item) (account : Account.t)
    (accountID : string) (prevStatus nextStatus : AccountStatus)
    (first : Z) (others : list Z) :
  outage σ = None →
  tables σ !! AccountTableName db = Some tbl →
  keySchema tbl = ["Id"] →
  rows tbl !! [accountID] = Some item →
  unmarshalAccount item = Ok account →
  item !! "AccountStatus" = Some (AvS prevStatus) →
  is_int64 first = true →
  nextStatus ≠ prevStatus →
  let out := serve (map (TransitionAccountStatus db accountID prevStatus nextStatus)
                      (first :: others)) σ in
  out.1 = (Some (accountTransitioned account nextStatus first), None)
          :: map (fun _ => (None, Some (StatusTransitionError
                     (accountTransitionMessage accountID prevStatus nextStatus)))) others ∧
  oneWinner out.1 ∧
  calls out.2 = calls σ ++
    map (fun now => ReqUpdateItem
           (accountTransitionInput db accountID prevStatus nextStatus now))
        (first :: others) ∧
  Forall (fun r => isConditionalWrite r = true)
    (drop (length (calls σ)) (calls out.2)).
Proof.
  intros Hup Htbl Hschema Hrow Hacct Hstatus Hfirst Hne out.
  assert (out.1 = (Some (accountTransitioned account nextStatus first), None)
          :: map (fun _ => (None, Some (StatusTransitionError
                     (accountTransitionMessage accountID prevStatus nextStatus)))) others)
    as Hout.
  { subst out. simpl.
    rewrite (TransitionAccountStatus_guard_holds db accountID prevStatus nextStatus
               first σ tbl Hup Htbl Hschema)
      by (rewrite Hrow; by apply holds_S_same).
    rewrite Hrow.
    rewrite (unmarshalAccount_after item account accountID nextStatus first Hacct Hfirst).
    simpl ptrErr.
    match goal with
    | |- context [serve ?cs ?s] =>
        pose proof (serve_all_refused db accountID prevStatus nextStatus others s
                      (withRows tbl (<[ [accountID] :=
                          accountAfter accountID nextStatus first (Some item) ]> (rows tbl))))
          as H;
        destruct (serve cs s) as [rs σ'']
    end.
    simpl in *. destruct H as [H _].
    - exact Hup.
    - apply lookup_insert_eq.
    - exact Hschema.
    - simpl. rewrite lookup_insert_eq. apply holds_S_differs.
      unfold accountAfter. simplify_map_eq. congruence.
    - by rewrite H. }
  assert (calls out.2 = calls σ ++
    map (fun now => ReqUpdateItem
           (accountTransitionInput db accountID prevStatus nextStatus now))
        (first :: others)) as Hcalls.
  { subst out. apply serve_calls. }
  split_and!.
  - exact Hout.
  - rewrite Hout. by apply oneWinner_first.
  - exact Hcalls.
  - rewrite Hcalls, drop_app_length. by apply Forall_map_all.
Qed.

(** On the sample store: three callers of the transition of account 111
    from [Ready] to [Leased]. *)
Lemma same_transition_one_winner_witness :
  (serve (map (TransitionAccountStatus Sample.db "111" "Ready" "Leased")
            [1600000000; 1600000001; 1600000002]) Sample.store).1
  = [ (Some (accountTransitioned
               {| Account.ID := "111"; Account.Status := "Ready";
                  Account.LastModifiedOn := 1500000000; Account.CreatedOn := 0;
                  Account.AdminRoleArn := EmptyString;
                  Account.PrincipalRoleArn := EmptyString;
                  Account.PrincipalPolicyHash := EmptyString;
                  Account.Metadata := [] |} "Leased" 1600000000), None);
      (None, Some (StatusTransitionError (accountTransitionMessage "111" "Ready" "Leased")));
      (None, Some (StatusTransitionError (accountTransitionMessage "111" "Ready" "Leased"))) ].
Proof.
  refine (proj1 (same_transition_one_winner Sample.db Sample.store Sample.accounts
                   Sample.account111 _ "111" "Ready" "Leased" 1600000000
                   [1600000001; 1600000002] _ _ _ _ _ _ _ _)).
  all: try reflexivity.
  discriminate.
Defined.

(** C3, as stated, fails when the next status is the previous one: the
    write leaves the stored status as it was, the guard holds again, and two
    callers of the transition from [Ready] to [Ready] both succeed. *)
Lemma same_transition_two_winners :
  let outs := (serve (map (TransitionAccountStatus Sample.db "111" "Ready" "Ready")
                        [1600000000; 1600000001]) Sample.store).1 in
  map succeeded outs = [true; true] ∧ ¬ oneWinner outs.
Proof.
  split; [reflexivity|].
  intros [H _]. vm_compute in H. discriminate.
Qed.

(** ** Validation in [UpsertLease] *)

Lemma leaseRef_names (lease : Lease.t) (before after : string) :
  occursIn (Lease.PrincipalID lease) (before +:+ leaseRef lease +:+ after) ∧
  occursIn (Lease.AccountID lease) (before +:+ leaseRef lease +:+ after).
Proof.
  unfold leaseRef. rewrite !string_app_assoc. split.
  - apply occursIn_skip, occursIn_here.
  - do 3 apply occursIn_skip. apply occursIn_here.
Qed.

(** C4.  [UpsertLease] of a lease with an empty [ID] or a zero [ExpiresOn]
    fails with an error whose text names the principal and the account of
    the lease, and the store is as it was: no request was sent, nothing was
    written. *)
Theorem UpsertLease_rejects_invalid (db : DB) (lease : Lease.t) (σ : DynamoDB) :
  Lease.ID lease = EmptyString ∨ Lease.ExpiresOn lease = 0 →
  ∃ msg,
    UpsertLease db lease σ = ((None, Some (ErrorString msg)), σ) ∧
    occursIn (Lease.PrincipalID lease) msg ∧
    occursIn (Lease.AccountID lease) msg ∧
    msg = "failed to create lease for " +:+ leaseRef lease +:+
          (if String.eqb (Lease.ID lease) EmptyString
           then ": missing ID" else ": missing ExpiresOn").
Proof.
  intros H. unfold UpsertLease.
  destruct (Lease.ID lease) as [|c id] eqn:EID; simpl.
  - eexists. split; [reflexivity|].
    destruct (leaseRef_names lease "failed to create lease for " ": missing ID").
    by split_and!.
  - destruct H as [H|H]; [discriminate|]. rewrite H. simpl.
    eexists. split; [reflexivity|].
    destruct (leaseRef_names lease "failed to create lease for " ": missing ExpiresOn").
    by split_and!.
Qed.

(** On the sample store: a lease without [ExpiresOn]. *)
Lemma UpsertLease_rejects_invalid_witness :
  ∃ msg,
    UpsertLease Sample.db
      {| Lease.AccountID := "111"; Lease.PrincipalID := "u1"; Lease.ID := "lease-1";
         Lease.LeaseStatus := "Active"; Lease.LeaseStatusReason := EmptyString;
         Lease.LastModifiedOn := 0; Lease.LeaseStatusModifiedOn := 0;
         Lease.ExpiresOn := 0 |} Sample.store
    = ((None, Some (ErrorString msg)), Sample.store).
Proof.
  destruct (UpsertLease_rejects_invalid Sample.db
              {| Lease.AccountID := "111"; Lease.PrincipalID := "u1"; Lease.ID := "lease-1";
                 Lease.LeaseStatus := "Active"; Lease.LeaseStatusReason := EmptyString;
                 Lease.LastModifiedOn := 0; Lease.LeaseStatusModifiedOn := 0;
                 Lease.ExpiresOn := 0 |} Sample.store) as (msg & H & _).
  - right. reflexivity.
  - exists msg. exact H.
Defined.

(** ** Reads *)

Lemma Query_healthy (input : QueryInput) (σ : DynamoDB) (tbl : Table) :
  outage σ = None →
  tables σ !! q_TableName input = Some tbl →
  Query input σ = (queryTable tbl input, received (ReqQuery input) σ).
Proof. intros Hup Htbl. unfold Query. by rewrite Hup, Htbl. Qed.

(** What an index holds for a key: the rows of the table that carry the
    index attribute with that value. *)
Lemma matching_spec (name s : string) (tbl : Table) (item : Item) :
  item ∈ matching (name, AvS s) tbl ↔
  ∃ key, rows tbl !! key = Some item ∧ item !! name = Some (AvS s).
Proof.
  unfold matching. rewrite list_elem_of_In, filter_In, <- list_elem_of_In.
  rewrite holds_S. split.
  - intros (Hin & it & [= <-] & Hattr).
    apply list_elem_of_In, in_map_iff in Hin as ([key it'] & Heq & Hin).
    simpl in Heq. subst it'.
    apply list_elem_of_In, elem_of_map_to_list in Hin. by exists key.
  - intros (key & Hrow & Hattr). split; [|by exists item].
    apply list_elem_of_In, in_map_iff. exists (key, item). split; [done|].
    by apply list_elem_of_In, elem_of_map_to_list.
Qed.

Lemma queryTable_index (tbl : Table) (table index name placeholder s : string) :
  indexes tbl !! index = Some name →
  queryTable tbl {| q_TableName := table; q_IndexName := index;
                    q_ExpressionAttributeValues := {[ placeholder := AvS s ]};
                    q_KeyConditionExpression := Equals name placeholder |}
  = if isAlias name
    then Err (ValidationException
                "Invalid KeyConditionExpression: an expression attribute value is not defined")
    else Ok {| Items := matching (name, AvS s) tbl |}.
Proof.
  intros Hidx. unfold queryTable. simpl q_IndexName. rewrite Hidx. simpl.
  unfold resolvePath. destruct (isAlias name); [by rewrite lookup_empty|].
  simpl. rewrite lookup_singleton_eq. simpl. by rewrite String.eqb_refl.
Qed.

Lemma GetLeaseByID_unfold (db : DB) (leaseID : string) (σ : DynamoDB) (tbl : Table) :
  outage σ = None →
  tables σ !! LeaseTableName db = Some tbl →
  indexes tbl !! "LeaseId" = Some "Id" →
  (GetLeaseByID db leaseID σ).1 =
    match matching ("Id", AvS leaseID) tbl with
    | [] => (None, Some (ErrorString ("No Lease found with id: " +:+ leaseID)))
    | [item] => ptrErr (unmarshalLease item)
    | _ :: _ :: _ =>
        (None, Some (ErrorString ("Found more than one Lease with id: " +:+ leaseID)))
    end.
Proof.
  intros Hup Htbl Hidx. unfold GetLeaseByID. cbv zeta.
  pose proof (Query_healthy (leaseByIDInput db leaseID) σ tbl Hup Htbl) as HQ.
  unfold leaseByIDInput in HQ. rewrite HQ.
  rewrite (queryTable_index tbl _ "LeaseId" "Id" ":a1" leaseID Hidx). simpl.
  by destruct (matching ("Id", AvS leaseID) tbl) as [|item [|item' rest]].
Qed.

(** C5.  [GetLeaseByID], on a store that answers: when no row carries the
    id, the error [No Lease found]; when two or more rows carry it, the
    error [Found more than one Lease]; when one row carries it, what
    decoding that row gives; and a lease is returned only in that last case,
    and is the decoded row. *)
Theorem GetLeaseByID_cases (db : DB) (leaseID : string) (σ : DynamoDB) (tbl : Table) :
  outage σ = None →
  tables σ !! LeaseTableName db = Some tbl →
  indexes tbl !! "LeaseId" = Some "Id" →
  let found := matching ("Id", AvS leaseID) tbl in
  let out := (GetLeaseByID db leaseID σ).1 in
  (length found = 0%nat →
     out = (None, Some (ErrorString ("No Lease found with id: " +:+ leaseID)))) ∧
  ((2 ≤ length found)%nat →
     out = (None, Some (ErrorString ("Found more than one Lease with id: " +:+ leaseID)))) ∧
  (∀ item, found = [item] → out = ptrErr (unmarshalLease item)) ∧
  (∀ lease, out = (Some lease, None) ↔
            ∃ item, found = [item] ∧ unmarshalLease item = Ok lease).
Proof.
  intros Hup Htbl Hidx found out. subst out.
  rewrite (GetLeaseByID_unfold db leaseID σ tbl Hup Htbl Hidx).
  fold found. destruct found as [|item [|item' rest]]; simpl.
  - split_and!; [done|lia|done|]. intros lease. split; [done|]. by intros (? & ? & _).
  - split_and!; [done|lia|by intros ? [= <-]|].
    intros lease. split.
    + intros H. exists item. split; [done|].
      destruct (unmarshalLease item); simpl in H; congruence.
    + intros (? & [= <-] & ->). done.
  - split_and!; [done|done|done|]. intros lease. split; [done|]. by intros (? & ? & _).
Qed.

(** On the sample store: one row carries the id [lease-1]. *)
Lemma GetLeaseByID_cases_witness :
  (GetLeaseByID Sample.db "lease-1" Sample.store).1
  = ptrErr (unmarshalLease Sample.lease1).
Proof.
  refine (proj1 (proj2 (proj2 (GetLeaseByID_cases Sample.db "lease-1" Sample.store
                                 Sample.leases _ _ _))) Sample.lease1 _).
  all: reflexivity.
Defined.

(** The key of an account request denotes the row of that account, under
    any schema that accepts it. *)
Lemma keyOf_account_inv (schema : list string) (accountID : string) (k : list string) :
  keyOf schema {[ "Id" := AvS accountID ]} = Some k → k = [accountID].
Proof.
  unfold keyOf. case_bool_decide as Hsize; [|discriminate].
  rewrite map_size_singleton in Hsize.
  destruct schema as [|a [|b schema]]; try discriminate Hsize.
  simpl. destruct (decide (a = "Id")) as [->|Hne].
  - rewrite lookup_singleton_eq. simpl. by intros [= <-].
  - by rewrite lookup_singleton_ne.
Qed.

(** C8.  [GetAccount] for an id under which the account table has no row
    returns no account, and no error unless the request to the store itself
    fails: the error returned, if any, is the error of [GetItem]; on a store
    that answers, the result is nil and nil. *)
Theorem GetAccount_absent (db : DB) (accountID : string) (σ : DynamoDB) :
  accountRow db σ accountID = None →
  let out := (GetAccount db accountID σ).1 in
  out.1 = None ∧
  (∀ err, out.2 = Some err ↔ (GetItem (getAccountInput db accountID) σ).1 = Err err) ∧
  (∀ tbl, outage σ = None →
          tables σ !! AccountTableName db = Some tbl →
          keySchema tbl = ["Id"] →
          out = (None, None)).
Proof.
  intros Hrow out. subst out. unfold GetAccount. fold (getAccountInput db accountID).
  unfold accountRow in Hrow. unfold GetItem.
  destruct (outage σ) as [e|] eqn:Hout; simpl.
  { split_and!; [done| |done]. intros err. split; congruence. }
  destruct (tables σ !! AccountTableName db) as [tbl|] eqn:Htbl; simpl in *.
  2: { split_and!; [done| |done]. intros err. split; congruence. }
  destruct (keyOf (keySchema tbl) _) as [k|] eqn:Hkey; simpl.
  2: { split_and!; [done| |].
       - intros err. split; congruence.
       - intros tbl' _ [= <-] Hschema. rewrite Hschema in Hkey. discriminate. }
  apply keyOf_account_inv in Hkey as ->. rewrite Hrow. simpl.
  split_and!; [done| |done]. intros err. split; discriminate.
Qed.

(** On the sample store: there is no account 999. *)
Lemma GetAccount_absent_witness :
  (GetAccount Sample.db "999" Sample.store).1 = (None, None).
Proof.
  refine (proj2 (proj2 (GetAccount_absent Sample.db "999" Sample.store _))
            Sample.accounts _ _ _).
  all: reflexivity.
Defined.

Lemma appendAccounts_not_nil (items : list Item) (accounts : list Account.t) :
  ∃ l, (appendAccounts items (Slice accounts)).1 = Slice l.
Proof.
  revert accounts. induction items as [|item items IH]; intros accounts; simpl.
  - by exists accounts.
  - destruct (unmarshalAccount item); [apply IH|by exists accounts].
Qed.

(** C9.  [FindAccountsByStatus] returns the empty slice and no error when
    no row carries the status, and in no case a nil slice;
    [FindLeasesByPrincipal] returns a result without elements and no error
    when no row carries the principal. *)
Theorem find_without_matches :
  (∀ (db : DB) (status : AccountStatus) (σ : DynamoDB) (tbl : Table),
     outage σ = None →
     tables σ !! AccountTableName db = Some tbl →
     indexes tbl !! "AccountStatus" = Some "AccountStatus" →
     matching ("AccountStatus", AvS status) tbl = [] →
     (FindAccountsByStatus db status σ).1 = (Slice [], None))
  ∧
  (∀ (db : DB) (status : AccountStatus) (σ : DynamoDB),
     (FindAccountsByStatus db status σ).1.1 ≠ NilSlice)
  ∧
  (∀ (db : DB) (principalID : string) (σ : DynamoDB) (tbl : Table),
     outage σ = None →
     tables σ !! LeaseTableName db = Some tbl →
     indexes tbl !! "PrincipalId" = Some "PrincipalId" →
     matching ("PrincipalId", AvS principalID) tbl = [] →
     let out := (FindLeasesByPrincipal db principalID σ).1 in
     out.2 = None ∧ len out.1 = 0%nat ∧ elems out.1 = [] ∧ out.1 = NilSlice).
Proof.
  split_and!.
  - intros db status σ tbl Hup Htbl Hidx Hnone. unfold FindAccountsByStatus.
    pose proof (Query_healthy
                  {| q_TableName := AccountTableName db; q_IndexName := "AccountStatus";
                     q_ExpressionAttributeValues := {[ ":status" := AvS status ]};
                     q_KeyConditionExpression := Equals "AccountStatus" ":status" |}
                  σ tbl Hup Htbl) as HQ.
    rewrite HQ.
    rewrite (queryTable_index tbl _ "AccountStatus" "AccountStatus" ":status" status Hidx).
    simpl. by rewrite Hnone.
  - intros db status σ. unfold FindAccountsByStatus.
    destruct (Query _ σ) as [[res|e] σ']; simpl; [|done].
    destruct (appendAccounts_not_nil (Items res) []) as [l ->]. done.
  - intros db principalID σ tbl Hup Htbl Hidx Hnone out. subst out.
    unfold FindLeasesByPrincipal. cbv zeta.
    pose proof (Query_healthy
                  {| q_TableName := LeaseTableName db; q_IndexName := "PrincipalId";
                     q_ExpressionAttributeValues := {[ ":u1" := AvS principalID ]};
                     q_KeyConditionExpression := Equals "PrincipalId" ":u1" |}
                  σ tbl Hup Htbl) as HQ.
    rewrite HQ.
    rewrite (queryTable_index tbl _ "PrincipalId" "PrincipalId" ":u1" principalID Hidx).
    simpl. by rewrite Hnone.
Qed.

(** On the sample store: no account is [Leased] and principal u9 has no
    lease. *)
Lemma find_without_matches_witness :
  (FindAccountsByStatus Sample.db "Leased" Sample.store).1 = (Slice [], None)
  ∧ (FindLeasesByPrincipal Sample.db "u9" Sample.store).1.2 = None.
Proof.
  destruct find_without_matches as (Haccounts & _ & Hleases).
  split.
  - refine (Haccounts Sample.db "Leased" Sample.store Sample.accounts _ _ _ _).
    all: reflexivity.
  - refine (proj1 (Hleases Sample.db "u9" Sample.store Sample.leases _ _ _ _)).
    all: reflexivity.
Defined.

(** ** The expression builder *)

Lemma aliasOf_inj (sigil : string) (i j : nat) :
  aliasOf sigil i = aliasOf sigil j → i = j.
Proof.
  unfold aliasOf. intros H. apply String.app_inj in H.
  by apply (inj pretty) in H.
Qed.

Lemma aliasMap_lookup {A} (sigil : string) (l : list A) (i j : nat) :
  aliasMap sigil i l !! aliasOf sigil (i + j) = l !! j.
Proof.
  revert i j. induction l as [|x l IH]; intros i j; simpl.
  - by rewrite lookup_empty.
  - destruct j as [|j].
    + rewrite Nat.add_0_r. by rewrite lookup_insert_eq.
    + rewrite lookup_insert_ne.
      * replace (i + S j)%nat with (S i + j)%nat by lia. apply IH.
      * intros H. apply aliasOf_inj in H. lia.
Qed.

Lemma aliasMap_lookup_0 {A} (sigil : string) (l : list A) (j : nat) :
  aliasMap sigil 0 l !! aliasOf sigil j = l !! j.
Proof. apply (aliasMap_lookup sigil l 0 j). Qed.

Lemma aliasPath_spec (nm : string) (names : list string) :
  ∃ ind, (aliasPath nm names).1 = aliasOf "#" ind ∧
         (aliasPath nm names).2 !! ind = Some nm ∧
         names `prefix_of` (aliasPath nm names).2.
Proof.
  unfold aliasPath.
  destruct (list_find (fun name => name = nm) names) as [[ind name]|] eqn:E.
  - apply list_find_Some in E as (Hlook & -> & _). by exists ind.
  - exists (length names). split_and!; [done| |by apply prefix_app_r].
    simpl. by rewrite lookup_app_r, Nat.sub_diag.
Qed.

(** The aliases the builder hands out resolve, in the maps of the finished
    expression, to the names and values they were handed out for. *)
Lemma buildChildNodes_resolves (ops : UpdateBuilder) (al : aliasList)
    (acts : list SetAction) (al' : aliasList) :
  buildChildNodes ops al = Ok (acts, al') →
  namesList al `prefix_of` namesList al' ∧
  valuesList al `prefix_of` valuesList al' ∧
  ∀ N V, namesList al' `prefix_of` N → valuesList al' `prefix_of` V →
         mapM (resolveSet (aliasMap "#" 0 N) (aliasMap ":" 0 V)) acts = Some ops.
Proof.
  revert al acts al'. induction ops as [|[nm v] ops IH]; intros al acts al' H; simpl in H.
  - injection H as <- <-. by split_and!.
  - destruct (String.eqb nm EmptyString); [discriminate|].
    destruct (aliasPath_spec nm (namesList al)) as (ind & Hpath & Hind & Hpre).
    destruct (aliasPath nm (namesList al)) as [path names']. simpl in *. subst path.
    destruct (buildChildNodes ops _) as [[acts' al'']|] eqn:E; simpl in H; [|discriminate].
    injection H as <- <-.
    apply IH in E as (Hn & Hv & Hres). simpl in *.
    split_and!.
    + by etrans.
    + etrans; [|done]. by apply prefix_app_r.
    + intros N V HN HV. simpl.
      rewrite (Hres N V HN HV).
      assert (resolvePath (aliasMap "#" 0 N) (aliasOf "#" ind) = Some nm) as ->.
      { unfold resolvePath. change (isAlias (aliasOf "#" ind)) with true.
        rewrite aliasMap_lookup_0.
        eapply prefix_lookup_Some; [exact Hind|]. by etrans. }
      assert (aliasMap ":" 0 V !! aliasOf ":" (length (valuesList al)) = Some v) as ->.
      { rewrite aliasMap_lookup_0.
        apply (prefix_lookup_Some (valuesList al ++ [v])); [|by etrans].
        by rewrite lookup_app_r, Nat.sub_diag. }
      reflexivity.
Qed.

Lemma Build_resolves (updateBuilder : UpdateBuilder) (expr : Expression) :
  Build updateBuilder = Ok expr → assignments expr = Some updateBuilder.
Proof.
  unfold Build, assignments.
  destruct updateBuilder as [|op ops]; [discriminate|].
  destruct (buildChildNodes (op :: ops) _) as [[acts al]|] eqn:E; simpl; [|discriminate].
  intros [= <-]. simpl.
  by apply (buildChildNodes_resolves _ _ _ _ E).
Qed.

(** The builder fails only for want of something to set or of a name. *)
Lemma buildChildNodes_Ok (ops : UpdateBuilder) (al : aliasList) :
  Forall (fun op => op.1 ≠ EmptyString) ops →
  ∃ r, buildChildNodes ops al = Ok r.
Proof.
  revert al. induction ops as [|[nm v] ops IH]; intros al Hops; simpl.
  - by eexists.
  - inversion_clear Hops as [|? ? Hnm Hrest]. simpl in Hnm.
    apply String.eqb_neq in Hnm. rewrite Hnm.
    destruct (aliasPath nm (namesList al)) as [path names'].
    destruct (IH {| namesList := names'; valuesList := valuesList al ++ [v] |} Hrest)
      as [r ->].
    by eexists.
Qed.

Lemma Build_Ok (updateBuilder : UpdateBuilder) :
  updateBuilder ≠ [] →
  Forall (fun op => op.1 ≠ EmptyString) updateBuilder →
  ∃ expr, Build updateBuilder = Ok expr.
Proof.
  intros Hne Hnames. unfold Build.
  destruct updateBuilder as [|op ops]; [done|].
  destruct (buildChildNodes_Ok (op :: ops) {| namesList := []; valuesList := [] |} Hnames)
    as [r ->].
  by eexists.
Qed.

(** The loop keeps, in the order of the fields, the assignment of every
    field that is selected. *)
Lemma selectFields_spec (input : buildUpdateExpressInput) :
  selectFields input = map assignment (List.filter (selected input) (obj input)).
Proof.
  unfold selectFields.
  enough (∀ fields acc,
    foldl (fun updateBuilder f =>
             if ((0 <? length (excludeFields input))%nat
                 && containsStr (excludeFields input) (fieldName f))
                || ((0 <? length (includeFields input))%nat
                    && negb (containsStr (includeFields input) (fieldName f)))
             then updateBuilder
             else updateBuilder ++ [(jsonTag f, fieldVal f)]) acc fields
    = acc ++ map assignment (List.filter (selected input) fields)) as H
    by apply (H (obj input) []).
  induction fields as [|f fields IH]; intros acc; simpl.
  - by rewrite app_nil_r.
  - rewrite IH. unfold selected at 2.
    destruct (_ || _); simpl; [done|].
    by rewrite <- app_assoc.
Qed.


Lemma decodeString_insert_marshal (item : Item) (n s : string) :
  decodeString (<[ n := marshalString s ]> item) n = Ok s.
Proof.
  unfold decodeString, marshalString. rewrite lookup_insert_eq.
  destruct (String.eqb s EmptyString) eqn:E; [|done].
  apply String.eqb_eq in E. by subst.
Qed.

Lemma decodeInt64_insert_marshal (item : Item) (n : string) (z : Z) :
  is_int64 z = true → decodeInt64 (<[ n := marshalInt64 z ]> item) n = Ok z.
Proof. apply decodeInt64_insert_N. Qed.

(** What [UpsertLease] sets: every field but the two of the key, under its
    external name. *)
Lemma upsertLease_assignments (lease : Lease.t) :
  map assignment (List.filter (selected (upsertLeaseFields lease)) (reflectLease lease))
  = [ ("Id", marshalString (Lease.ID lease));
      ("LeaseStatus", marshalString (Lease.LeaseStatus lease));
      ("LeaseStatusReason", marshalString (Lease.LeaseStatusReason lease));
      ("LastModifiedOn", marshalInt64 (Lease.LastModifiedOn lease));
      ("LeaseStatusModifiedOn", marshalInt64 (Lease.LeaseStatusModifiedOn lease));
      ("ExpiresOn", marshalInt64 (Lease.ExpiresOn lease)) ].
Proof. reflexivity. Qed.

Lemma upsertLease_expression (lease : Lease.t) :
  ∃ expr, buildUpdateExpression (upsertLeaseFields lease) = Ok expr.
Proof.
  unfold buildUpdateExpression. simpl andb. cbv iota.
  rewrite selectFields_spec, upsertLease_assignments.
  apply Build_Ok; [done|]. repeat constructor; simpl; discriminate.
Qed.

(** The assignments of a built expression are those of the selected fields,
    under their [json] tags. *)
Lemma buildUpdateExpression_assignments (input : buildUpdateExpressInput)
    (expr : Expression) :
  buildUpdateExpression input = Ok expr →
  assignments expr = Some (map assignment (List.filter (selected input) (obj input))).
Proof.
  intros H. unfold buildUpdateExpression in H.
  destruct (_ && _); [discriminate|].
  apply Build_resolves in H. by rewrite <- selectFields_spec.
Qed.

(** C7.  The names an update expression of the builder assigns to are the
    values of the [json] tags of the selected fields, in the order of the
    fields, each with the value of its field, not the Go names of the
    fields; and for a lease they are the names the decoder of leases reads:
    a row updated with the expression of [UpsertLease] decodes to the lease
    that was passed, under the key of the row. *)
Theorem buildUpdateExpression_external_names :
  (∀ (input : buildUpdateExpressInput) (expr : Expression),
     buildUpdateExpression input = Ok expr →
     ∃ acts, assignments expr = Some acts ∧
             acts = map assignment (List.filter (selected input) (obj input)) ∧
             map fst acts = map jsonTag (List.filter (selected input) (obj input)))
  ∧
  (∀ (lease stored : Lease.t) (item : Item) (expr : Expression),
     buildUpdateExpression (upsertLeaseFields lease) = Ok expr →
     leaseInt64 lease →
     unmarshalLease item = Ok stored →
     ∃ acts, assignments expr = Some acts ∧
             unmarshalLease (applySet acts item) = Ok (leaseUnderKey lease stored)).
Proof.
  split.
  - intros input expr H. eexists.
    split_and!; [by apply buildUpdateExpression_assignments|done|].
    by rewrite map_map.
  - intros lease stored item expr H (H1 & H2 & H3) Hstored.
    eexists. split; [by apply buildUpdateExpression_assignments|].
    rewrite upsertLease_assignments.
    unfold unmarshalLease, UnmarshalMapLease, applySet in *. simpl foldl.
    repeat first
      [ rewrite decodeString_insert_marshal
      | rewrite decodeInt64_insert_marshal by assumption
      | rewrite decodeString_insert_ne by done
      | rewrite decodeInt64_insert_ne by done ].
    decoded Hstored. injection Hstored as <-. reflexivity.
Qed.

(** The expression for a sample lease, applied to the row of lease 111/u1. *)
Lemma buildUpdateExpression_external_names_witness :
  ∃ acts,
    assignments (upsertExpression SampleLease.lease2) = Some acts ∧
    unmarshalLease (applySet acts Sample.lease1)
    = Ok (leaseUnderKey SampleLease.lease2 SampleLease.stored1).
Proof.
  refine (proj2 buildUpdateExpression_external_names SampleLease.lease2
            SampleLease.stored1 Sample.lease1 (upsertExpression SampleLease.lease2)
            _ _ _).
  - reflexivity.
  - repeat split.
  - reflexivity.
Defined.

(** ** The update of [UpsertLease] *)

Lemma upsertExpression_built (lease : Lease.t) :
  buildUpdateExpression (upsertLeaseFields lease) = Ok (upsertExpression lease).
Proof.
  unfold upsertExpression. by destruct (upsertLease_expression lease) as [expr ->].
Qed.

Lemma upsertExpression_assignments (lease : Lease.t) :
  assignments (upsertExpression lease)
  = Some (map assignment
            (List.filter (selected (upsertLeaseFields lease)) (reflectLease lease))).
Proof. apply buildUpdateExpression_assignments, upsertExpression_built. Qed.

Lemma UpsertLease_valid (db : DB) (lease : Lease.t) (σ : DynamoDB) :
  Lease.ID lease ≠ EmptyString →
  Lease.ExpiresOn lease ≠ 0 →
  UpsertLease db lease σ =
    let '(r, σ') := UpdateItem (upsertLeaseInput db lease (upsertExpression lease)) σ in
    match r with
    | Err err =>
        let msg := "Failed to update lease " +:+ leaseRef lease in
        let msg := match awsErrCode err with
                   | Some code => msg +:+ " [" +:+ code +:+ "]"
                   | None => msg
                   end in
        ((None, Some (WithMessage err msg)), σ')
    | Ok res =>
        match unmarshalLease (Attributes res) with
        | Err err =>
            ((None, Some (WithMessage err
                            ("Failed to update lease " +:+ leaseRef lease))), σ')
        | Ok updatedLease => ((Some updatedLease, None), σ')
        end
    end.
Proof.
  intros HID Hexp. unfold UpsertLease.
  destruct (Lease.ID lease) as [|c id] eqn:EID; [done|]. simpl Nat.eqb. cbv iota.
  apply Z.eqb_neq in Hexp. rewrite Hexp.
  fold (upsertLeaseFields lease). rewrite upsertExpression_built.
  reflexivity.
Qed.

Lemma UpsertLease_calls (db : DB) (lease : Lease.t) (σ : DynamoDB) :
  Lease.ID lease ≠ EmptyString →
  Lease.ExpiresOn lease ≠ 0 →
  calls (UpsertLease db lease σ).2
  = calls σ ++ [ReqUpdateItem (upsertLeaseInput db lease (upsertExpression lease))].
Proof.
  intros HID Hexp. rewrite (UpsertLease_valid db lease σ HID Hexp).
  pose proof (UpdateItem_calls (upsertLeaseInput db lease (upsertExpression lease)) σ) as H.
  destruct (UpdateItem _ σ) as [[res|e] σ']; simpl in *; [|done].
  by destruct (unmarshalLease (Attributes res)).
Qed.

Lemma applySet_lookup_ne (acts : list (string * AttributeValue)) (item : Item)
    (name : string) :
  name ∉ map fst acts → applySet acts item !! name = item !! name.
Proof.
  unfold applySet. revert item.
  induction acts as [|[n v] acts IH]; intros item Hnot; simpl; [done|].
  rewrite IH.
  - apply lookup_insert_ne. intros ->. apply Hnot. simpl. left.
  - intros Hin. apply Hnot. simpl. by right.
Qed.

(** Go ranges over the fields of the object in an order that changes from
    run to run.  The order does not matter to the update: assignments to
    different names commute. *)
Lemma applySet_Permutation (acts acts' : list (string * AttributeValue)) (item : Item) :
  Permutation acts acts' →
  NoDup (map fst acts) →
  applySet acts item = applySet acts' item.
Proof.
  unfold applySet. intros Hperm. revert item.
  induction Hperm as [|a l l' Hperm IH|a b l|l l' l'' H1 IH1 H2 IH2];
    intros item Hnodup; simpl in *.
  - reflexivity.
  - apply IH. by inversion Hnodup.
  - f_equal. apply insert_insert_ne.
    inversion_clear Hnodup as [|? ? Hnotin _]. intros Heq. apply Hnotin.
    rewrite Heq. by left.
  - rewrite IH1 by done. apply IH2.
    assert (map fst l ≡ₚ map fst l') as Hmap by (by apply Permutation_map).
    by rewrite <- Hmap.
Qed.

Lemma List_filter_Permutation {A} (p : A → bool) (l l' : list A) :
  Permutation l l' → Permutation (List.filter p l) (List.filter p l').
Proof.
  induction 1 as [|a l l' Hperm IH|a b l|l l' l'' H1 IH1 H2 IH2]; simpl.
  - constructor.
  - destruct (p a); [by constructor|done].
  - destruct (p a), (p b); try done. apply perm_swap.
  - by etrans.
Qed.

(** Whatever the order in which the fields of the lease are visited, the
    expression built for [UpsertLease] updates a row in the same way. *)
Lemma upsert_order_irrelevant (lease : Lease.t) (fields : list StructField)
    (expr : Expression) (item : Item) :
  Permutation (reflectLease lease) fields →
  buildUpdateExpression {| obj := fields;
                           excludeFields := ["AccountID"; "PrincipalID"];
                           includeFields := [] |} = Ok expr →
  ∃ acts, assignments expr = Some acts ∧
          applySet acts item
          = applySet (map assignment
                        (List.filter (selected (upsertLeaseFields lease))
                           (reflectLease lease))) item.
Proof.
  intros Hperm Hexpr. eexists.
  split; [by apply buildUpdateExpression_assignments|].
  symmetry. apply applySet_Permutation.
  - apply Permutation_map. simpl obj.
    by apply (List_filter_Permutation (selected (upsertLeaseFields lease))).
  - rewrite upsertLease_assignments. simpl.
    repeat (apply NoDup_cons_2; [rewrite ?not_elem_of_cons; split_and?;
                                   try discriminate; apply not_elem_of_nil|]).
    apply NoDup_nil_2.
Qed.

(** The row an upsert leaves on a store that answers. *)
Lemma UpsertLease_row (db : DB) (lease : Lease.t) (σ : DynamoDB) (tbl : Table)
    (acts : list (string * AttributeValue)) :
  Lease.ID lease ≠ EmptyString →
  Lease.ExpiresOn lease ≠ 0 →
  outage σ = None →
  tables σ !! LeaseTableName db = Some tbl →
  keySchema tbl = ["AccountId"; "PrincipalId"] →
  assignments (upsertExpression lease) = Some acts →
  let key := [Lease.AccountID lease; Lease.PrincipalID lease] in
  let new := applySet acts
               (default (leaseKey (Lease.AccountID lease) (Lease.PrincipalID lease))
                  (rows tbl !! key)) in
  tables (UpsertLease db lease σ).2 !! LeaseTableName db
  = Some (withRows tbl (<[ key := new ]> (rows tbl))).
Proof.
  intros HID Hexp Hup Htbl Hschema Hacts key new.
  rewrite (UpsertLease_valid db lease σ HID Hexp).
  rewrite (UpdateItem_healthy (upsertLeaseInput db lease (upsertExpression lease))
             σ tbl Hup Htbl).
  assert (updateRow tbl (upsertLeaseInput db lease (upsertExpression lease))
          = Ok (new, withRows tbl (<[ key := new ]> (rows tbl)))) as ->.
  { unfold updateRow. rewrite Hschema. simpl u_Key.
    change (keyOf ["AccountId"; "PrincipalId"]
              (leaseKey (Lease.AccountID lease) (Lease.PrincipalID lease)))
      with (Some key).
    cbv zeta. unfold upsertLeaseInput.
    cbn [u_ExpressionAttributeNames u_ExpressionAttributeValues u_UpdateExpression
         u_ConditionExpression u_ReturnValues u_Key].
    pose proof Hacts as Hacts'. unfold assignments in Hacts'. rewrite Hacts'.
    rewrite upsertExpression_assignments, upsertLease_assignments in Hacts.
    injection Hacts as Hacts. subst new. rewrite <- Hacts. reflexivity. }
  cbn [Attributes]. destruct (unmarshalLease new); apply lookup_insert_eq.
Qed.

(** C6.  For a lease that passes the validation, the request
    [UpsertLease] sends is an update whose expression assigns, under its
    external name, every field of the lease but [AccountID] and
    [PrincipalID], and nothing else: no assignment is to the attributes
    [AccountId] and [PrincipalId], the update leaves them in any row as they
    are, and in the row the store keeps after the upsert they are those of
    the row before or, for a new row, of the key. *)
Theorem UpsertLease_sets_all_but_key (db : DB) (lease : Lease.t) (σ : DynamoDB) :
  Lease.ID lease ≠ EmptyString →
  Lease.ExpiresOn lease ≠ 0 →
  ∃ expr acts,
    buildUpdateExpression (upsertLeaseFields lease) = Ok expr ∧
    calls (UpsertLease db lease σ).2
      = calls σ ++ [ReqUpdateItem (upsertLeaseInput db lease expr)] ∧
    assignments expr = Some acts ∧
    (∀ f, f ∈ reflectLease lease →
          fieldName f ≠ "AccountID" → fieldName f ≠ "PrincipalID" →
          assignment f ∈ acts) ∧
    (∀ a, a ∈ acts → ∃ f, f ∈ reflectLease lease ∧ a = assignment f) ∧
    ("AccountId" ∉ map fst acts) ∧ ("PrincipalId" ∉ map fst acts) ∧
    (∀ item : Item,
       applySet acts item !! "AccountId" = item !! "AccountId" ∧
       applySet acts item !! "PrincipalId" = item !! "PrincipalId") ∧
    (∀ tbl, outage σ = None →
            tables σ !! LeaseTableName db = Some tbl →
            keySchema tbl = ["AccountId"; "PrincipalId"] →
            let key := [Lease.AccountID lease; Lease.PrincipalID lease] in
            let before := default (leaseKey (Lease.AccountID lease)
                                     (Lease.PrincipalID lease)) (rows tbl !! key) in
            ∃ tbl' row,
              tables (UpsertLease db lease σ).2 !! LeaseTableName db = Some tbl' ∧
              rows tbl' !! key = Some row ∧
              row = applySet acts before ∧
              row !! "AccountId" = before !! "AccountId" ∧
              row !! "PrincipalId" = before !! "PrincipalId").
Proof.
  intros HID Hexp.
  exists (upsertExpression lease).
  eexists. split; [apply upsertExpression_built|].
  split; [by apply UpsertLease_calls|].
  split.
  { rewrite upsertExpression_assignments. apply f_equal, upsertLease_assignments. }
  assert ("AccountId" ∉ map fst
            [ ("Id", marshalString (Lease.ID lease));
              ("LeaseStatus", marshalString (Lease.LeaseStatus lease));
              ("LeaseStatusReason", marshalString (Lease.LeaseStatusReason lease));
              ("LastModifiedOn", marshalInt64 (Lease.LastModifiedOn lease));
              ("LeaseStatusModifiedOn", marshalInt64 (Lease.LeaseStatusModifiedOn lease));
              ("ExpiresOn", marshalInt64 (Lease.ExpiresOn lease)) ]) as HA.
  { simpl. rewrite !not_elem_of_cons. split_and!; try discriminate.
    apply not_elem_of_nil. }
  assert ("PrincipalId" ∉ map fst
            [ ("Id", marshalString (Lease.ID lease));
              ("LeaseStatus", marshalString (Lease.LeaseStatus lease));
              ("LeaseStatusReason", marshalString (Lease.LeaseStatusReason lease));
              ("LastModifiedOn", marshalInt64 (Lease.LastModifiedOn lease));
              ("LeaseStatusModifiedOn", marshalInt64 (Lease.LeaseStatusModifiedOn lease));
              ("ExpiresOn", marshalInt64 (Lease.ExpiresOn lease)) ]) as HP.
  { simpl. rewrite !not_elem_of_cons. split_and!; try discriminate.
    apply not_elem_of_nil. }
  split_and!.
  - intros f Hf HnA HnP. unfold reflectLease in Hf.
    rewrite !elem_of_cons in Hf. rewrite !elem_of_cons.
    destruct Hf as [->|[->|[->|[->|[->|[->|[->|[->|Hf]]]]]]]]; simpl in *;
      try done; try (by inversion Hf); tauto.
  - intros a Ha. rewrite <- upsertLease_assignments in Ha.
    apply list_elem_of_In, in_map_iff in Ha as (f & <- & Hf).
    apply filter_In in Hf as [Hf _]. exists f. split; [|done].
    by apply list_elem_of_In.
  - exact HA.
  - exact HP.
  - intros item. split; by apply applySet_lookup_ne.
  - intros tbl Hup Htbl Hschema key before.
    eexists _, _. split_and!.
    + eapply UpsertLease_row; try eassumption.
      rewrite upsertExpression_assignments. apply f_equal, upsertLease_assignments.
    + cbn [rows withRows]. apply lookup_insert_eq.
    + reflexivity.
    + exact (applySet_lookup_ne _ before _ HA).
    + exact (applySet_lookup_ne _ before _ HP).
Qed.

(** On the sample store: the upsert of a sample lease sends one request,
    which sets the six attributes that are not of the key. *)
Lemma UpsertLease_sets_all_but_key_witness :
  ∃ expr acts,
    buildUpdateExpression (upsertLeaseFields SampleLease.lease2) = Ok expr ∧
    calls (UpsertLease Sample.db SampleLease.lease2 Sample.store).2
      = [ReqUpdateItem (upsertLeaseInput Sample.db SampleLease.lease2 expr)] ∧
    assignments expr = Some acts ∧
    map fst acts = ["Id"; "LeaseStatus"; "LeaseStatusReason"; "LastModifiedOn";
                    "LeaseStatusModifiedOn"; "ExpiresOn"].
Proof.
  destruct (UpsertLease_sets_all_but_key Sample.db SampleLease.lease2 Sample.store)
    as (expr & acts & Hexpr & Hcalls & Hacts & _).
  - discriminate.
  - discriminate.
  - exists expr, acts. split_and!; [exact Hexpr|exact Hcalls|exact Hacts|].
    rewrite (buildUpdateExpression_assignments _ _ Hexpr) in Hacts.
    injection Hacts as <-. reflexivity.
Defined.

(** * Further properties of the store *)

(** ** The expression builder: selection and failure *)

Lemma containsStr_true (list : list string) (item : string) :
  containsStr list item = true ↔ item ∈ list.
Proof.
  induction list as [|i rest IH]; simpl.
  - split; [discriminate|]. by intros ?%elem_of_nil.
  - rewrite elem_of_cons. destruct (String.eqb i item) eqn:E.
    + apply String.eqb_eq in E. split; [by left|done].
    + apply String.eqb_neq in E. rewrite IH. split; [by right|].
      intros [->|H]; [done|exact H].
Qed.

(** X1.  [containsStr] decides membership: it is true exactly when the item
    is one of the strings of the list. *)
Theorem containsStr_spec (list : list string) (item : string) :
  (containsStr list item = true ↔ item ∈ list) ∧
  (containsStr list item = false ↔ item ∉ list).
Proof.
  split; [apply containsStr_true|].
  rewrite <- containsStr_true. by destruct (containsStr list item).
Qed.

Lemma Build_error (updateBuilder : UpdateBuilder) (e : error) :
  Build updateBuilder = Err e →
  e = unsetParameterError "buildTree" "UpdateBuilder" ∨
  e = unsetParameterError "BuildOperand" "NameBuilder".
Proof.
  unfold Build. destruct updateBuilder as [|op ops]; [intros [= <-]; by left|].
  generalize (op :: ops) as l. generalize {| namesList := []; valuesList := [] |} as al.
  intros al l. revert al.
  induction l as [|[nm v] l IH]; intros al; simpl; [done|].
  destruct (String.eqb nm EmptyString); simpl; [intros [= <-]; by right|].
  destruct (aliasPath nm (namesList al)) as [path names'].
  specialize (IH {| namesList := names'; valuesList := valuesList al ++ [v] |}).
  destruct (buildChildNodes l _) as [r|e']; simpl in *; [done|].
  intros [= <-]. by apply IH.
Qed.

(** X2.  [buildUpdateExpression] gives its own error, that the request may
    name fields to include or fields to exclude but not both, exactly when
    both lists are given, whatever the object. *)
Theorem buildUpdateExpression_both_lists (input : buildUpdateExpressInput) :
  buildUpdateExpression input = Err bothListsError ↔
  excludeFields input ≠ [] ∧ includeFields input ≠ [].
Proof.
  unfold buildUpdateExpression.
  destruct (excludeFields input) as [|x xs], (includeFields input) as [|y ys]; simpl.
  1-3: split; [|by intros [? ?]]; intros H;
       apply Build_error in H as [H|H]; discriminate H.
  split; [done|]. by intros _.
Qed.

Lemma selected_chosen (input : buildUpdateExpressInput) (f : StructField) :
  selected input f = true ↔ chosen input f.
Proof.
  unfold selected, chosen.
  pose proof (containsStr_true (excludeFields input) (fieldName f)) as HE.
  pose proof (containsStr_true (includeFields input) (fieldName f)) as HI.
  assert ((0 <? length (excludeFields input))%nat
          && containsStr (excludeFields input) (fieldName f)
          = containsStr (excludeFields input) (fieldName f)) as ->
    by (by destruct (excludeFields input)).
  destruct (includeFields input) as [|y ys] eqn:EI.
  - simpl. rewrite orb_false_r, negb_true_iff.
    destruct (containsStr (excludeFields input) (fieldName f)).
    + split; [discriminate|]. intros [H _]. exfalso. apply H. by apply HE.
    + split; [|done]. intros _. split; [|by left].
      intros H. apply HE in H. discriminate.
  - simpl (0 <? _)%nat. rewrite andb_true_l, negb_true_iff, orb_false_iff, negb_false_iff.
    destruct (containsStr (excludeFields input) (fieldName f)),
             (containsStr (y :: ys) (fieldName f)).
    + split; [by intros [? _]|]. intros [H _]. exfalso. apply H. by apply HE.
    + split; [by intros [? _]|]. intros [H _]. exfalso. apply H. by apply HE.
    + split; [|done]. intros _. split; [|right; by apply HI].
      intros H. apply HE in H. discriminate.
    + split; [by intros [_ ?]|]. intros [_ [H|H]]; [discriminate|].
      apply HI in H. discriminate.
Qed.

(** X3.  The expression [buildUpdateExpression] builds assigns exactly the
    chosen fields of the object, each under its [json] tag with its value:
    the fields not named in [excludeFields] and, when [includeFields] is
    given, named in it. *)
Theorem buildUpdateExpression_selection (input : buildUpdateExpressInput)
    (expr : Expression) :
  buildUpdateExpression input = Ok expr →
  ∃ acts, assignments expr = Some acts ∧
          ∀ a, a ∈ acts ↔ ∃ f, f ∈ obj input ∧ chosen input f ∧ a = assignment f.
Proof.
  intros H. eexists. split; [by apply buildUpdateExpression_assignments|].
  intros a. rewrite list_elem_of_In, in_map_iff. split.
  - intros (f & <- & Hf). apply filter_In in Hf as [Hf Hsel].
    exists f. split_and!; [by apply list_elem_of_In|by apply selected_chosen|done].
  - intros (f & Hf & Hsel & ->). exists f. split; [done|].
    apply filter_In. split; [by apply list_elem_of_In|by apply selected_chosen].
Qed.

Lemma buildUpdateExpression_selection_witness :
  ∃ acts, assignments (upsertExpression SampleLease.lease2) = Some acts ∧
          ∀ a, a ∈ acts ↔
               ∃ f, f ∈ reflectLease SampleLease.lease2 ∧
                    chosen (upsertLeaseFields SampleLease.lease2) f ∧ a = assignment f.
Proof.
  refine (buildUpdateExpression_selection (upsertLeaseFields SampleLease.lease2)
            (upsertExpression SampleLease.lease2) _).
  reflexivity.
Defined.

Lemma buildChildNodes_Ok_inv (ops : UpdateBuilder) (al : aliasList)
    (r : list SetAction * aliasList) :
  buildChildNodes ops al = Ok r → Forall (fun op => op.1 ≠ EmptyString) ops.
Proof.
  revert al r. induction ops as [|[nm v] ops IH]; intros al r; simpl; [by constructor|].
  destruct (String.eqb nm EmptyString) eqn:E; [discriminate|].
  apply String.eqb_neq in E.
  destruct (aliasPath nm (namesList al)) as [path names'].
  destruct (buildChildNodes ops _) as [r'|e] eqn:E'; simpl; [|discriminate].
  intros _. constructor; [done|]. by eapply IH.
Qed.

(** X4.  [buildUpdateExpression] succeeds exactly when at most one of the
    two lists is given, some field of the object is chosen, and no chosen
    field has an empty [json] tag. *)
Theorem buildUpdateExpression_succeeds_iff (input : buildUpdateExpressInput) :
  (∃ expr, buildUpdateExpression input = Ok expr) ↔
  (excludeFields input = [] ∨ includeFields input = []) ∧
  (∃ f, f ∈ obj input ∧ chosen input f) ∧
  (∀ f, f ∈ obj input → chosen input f → jsonTag f ≠ EmptyString).
Proof.
  unfold buildUpdateExpression. rewrite selectFields_spec.
  set (fields := List.filter (selected input) (obj input)).
  assert (∀ f, f ∈ fields ↔ f ∈ obj input ∧ chosen input f) as Hfields.
  { intros f. unfold fields. rewrite list_elem_of_In, filter_In, <- list_elem_of_In.
    by rewrite selected_chosen. }
  split.
  - intros [expr H].
    destruct (excludeFields input) as [|x xs] eqn:EX,
             (includeFields input) as [|y ys] eqn:EI; simpl in H; try discriminate.
    all: (split; [tauto|]).
    all: unfold Build in H; destruct (map assignment fields) as [|op ops] eqn:Eops;
      [discriminate|].
    all: destruct (buildChildNodes (op :: ops) _) as [r|e] eqn:Eb; [|discriminate].
    all: apply buildChildNodes_Ok_inv in Eb; rewrite <- Eops in Eb.
    all: split;
      [ destruct fields as [|f fs]; [discriminate|];
        exists f; apply Hfields; by left
      | intros f Hf Hc;
        assert (f ∈ fields) as Hin by (by apply Hfields);
        rewrite Forall_forall in Eb; apply (Eb (assignment f));
        apply list_elem_of_In, in_map, list_elem_of_In, Hin ].
  - intros (Hlists & (f & Hf & Hc) & Htags).
    assert ((0 <? length (excludeFields input))%nat
            && (0 <? length (includeFields input))%nat = false) as ->.
    { destruct Hlists as [-> | ->]; [done|]. by rewrite andb_false_r. }
    apply Build_Ok.
    + assert (f ∈ fields) as Hin by (by apply Hfields).
      destruct fields; [by apply elem_of_nil in Hin|done].
    + apply Forall_forall. intros a Ha.
      apply list_elem_of_In, in_map_iff in Ha as (g & <- & Hg).
      apply list_elem_of_In, Hfields in Hg as [Hg1 Hg2]. by apply Htags.
Qed.

(** ** What the methods return and what they leave alone *)

Lemma ptrErr_recordOrError {A} (r : result A) : recordOrError (ptrErr r).
Proof. destruct r; [left|right]; by simpl. Qed.

Lemma GetLeaseByID_recordOrError (db : DB) (leaseID : string) (σ : DynamoDB) :
  recordOrError (GetLeaseByID db leaseID σ).1.
Proof.
  unfold GetLeaseByID. cbv zeta.
  destruct (Query _ σ) as [[resp|e] σ']; simpl; [|by right].
  destruct (Items resp) as [|item [|item' rest]]; simpl;
    [by right|apply ptrErr_recordOrError|by right].
Qed.

Lemma UpsertLease_recordOrError (db : DB) (lease : Lease.t) (σ : DynamoDB) :
  recordOrError (UpsertLease db lease σ).1.
Proof.
  unfold UpsertLease.
  destruct (String.length (Lease.ID lease) =? 0)%nat; [by right|].
  destruct (Lease.ExpiresOn lease =? 0); [by right|].
  destruct (buildUpdateExpression _) as [expr|e]; [|by right].
  destruct (UpdateItem _ σ) as [[res|e] σ']; simpl; [|by right].
  destruct (unmarshalLease (Attributes res)); [by left|by right].
Qed.

Lemma TransitionLeaseStatus_recordOrError (db : DB) (accountID principalID : string)
    (prevStatus nextStatus : LeaseStatus) (reason : LeaseStatusReason)
    (now now' : Z) (σ : DynamoDB) :
  recordOrError
    (TransitionLeaseStatus db accountID principalID prevStatus nextStatus reason
       now now' σ).1.
Proof.
  rewrite TransitionLeaseStatus_unfold.
  destruct (UpdateItem _ σ) as [[res|e] σ']; simpl.
  - apply ptrErr_recordOrError.
  - destruct (isConditionalCheckFailed e); by right.
Qed.

Lemma TransitionAccountStatus_recordOrError (db : DB) (accountID : string)
    (prevStatus nextStatus : AccountStatus) (now : Z) (σ : DynamoDB) :
  recordOrError (TransitionAccountStatus db accountID prevStatus nextStatus now σ).1.
Proof.
  rewrite TransitionAccountStatus_unfold.
  destruct (UpdateItem _ σ) as [[res|e] σ']; simpl.
  - apply ptrErr_recordOrError.
  - destruct (isConditionalCheckFailed e); by right.
Qed.

(** X5.  In every state of the store, [GetLeaseByID], [UpsertLease],
    [TransitionLeaseStatus] and [TransitionAccountStatus] return either a
    record and no error or no record and an error, never both and never
    neither; [GetAccount] never returns both, and returns neither only when
    the store answers that there is no item. *)
Theorem record_or_error (db : DB) (σ : DynamoDB) :
  (∀ leaseID, recordOrError (GetLeaseByID db leaseID σ).1) ∧
  (∀ lease, recordOrError (UpsertLease db lease σ).1) ∧
  (∀ accountID principalID prevStatus nextStatus reason now now',
     recordOrError (TransitionLeaseStatus db accountID principalID prevStatus
                      nextStatus reason now now' σ).1) ∧
  (∀ accountID prevStatus nextStatus now,
     recordOrError (TransitionAccountStatus db accountID prevStatus nextStatus now σ).1) ∧
  (∀ accountID,
     let out := (GetAccount db accountID σ).1 in
     recordOrError out ∨
     (out = (None, None) ∧
      (GetItem (getAccountInput db accountID) σ).1 = Ok {| Item_ := None |})).
Proof.
  split_and!.
  - intros. apply GetLeaseByID_recordOrError.
  - intros. apply UpsertLease_recordOrError.
  - intros. apply TransitionLeaseStatus_recordOrError.
  - intros. apply TransitionAccountStatus_recordOrError.
  - intros accountID out. subst out. unfold GetAccount.
    fold (getAccountInput db accountID).
    destruct (GetItem _ σ) as [[[[item|]]|e] σ']; simpl.
    + left. apply ptrErr_recordOrError.
    + by right.
    + left. by right.
Qed.

Lemma decodeString_Err (item : Item) (name : string) (e : error) :
  decodeString item name = Err e → isUnmarshalTypeError e.
Proof.
  unfold decodeString. destruct (item !! name) as [[]|]; intros [= <-]; by eexists _, _.
Qed.

Lemma decodeInt64_Err (item : Item) (name : string) (e : error) :
  decodeInt64 item name = Err e → isUnmarshalTypeError e.
Proof.
  unfold decodeInt64. destruct (item !! name) as [[s|n|b| |m]|]; try destruct (is_int64 n);
    intros [= <-]; by eexists _, _.
Qed.

Lemma decodeMap_Err (item : Item) (name : string) (e : error) :
  decodeMap item name = Err e → isUnmarshalTypeError e.
Proof.
  unfold decodeMap. destruct (item !! name) as [[]|]; intros [= <-]; by eexists _, _.
Qed.

Ltac decode_error H :=
  repeat match type of H with
         | context [decodeString ?i ?n] =>
             let E := fresh "E" in
             destruct (decodeString i n) eqn:E; simpl in H;
             [|injection H as <-; by apply decodeString_Err in E]
         | context [decodeInt64 ?i ?n] =>
             let E := fresh "E" in
             destruct (decodeInt64 i n) eqn:E; simpl in H;
             [|injection H as <-; by apply decodeInt64_Err in E]
         | context [decodeMap ?i ?n] =>
             let E := fresh "E" in
             destruct (decodeMap i n) eqn:E; simpl in H;
             [|injection H as <-; by apply decodeMap_Err in E]
         end.

Lemma unmarshalAccount_Err (item : Item) (e : error) :
  unmarshalAccount item = Err e → isUnmarshalTypeError e.
Proof.
  unfold unmarshalAccount, UnmarshalMapAccount. intros H. decode_error H. discriminate.
Qed.

Lemma unmarshalLease_Err (item : Item) (e : error) :
  unmarshalLease item = Err e → isUnmarshalTypeError e.
Proof.
  unfold unmarshalLease, UnmarshalMapLease. intros H. decode_error H. discriminate.
Qed.

Lemma TransitionAccountStatus_refused_tables (db : DB) (accountID : string)
    (prevStatus nextStatus : AccountStatus) (now : Z) (σ : DynamoDB) (msg : string) :
  (TransitionAccountStatus db accountID prevStatus nextStatus now σ).1.2
    = Some (StatusTransitionError msg) →
  tables (TransitionAccountStatus db accountID prevStatus nextStatus now σ).2 = tables σ.
Proof.
  rewrite TransitionAccountStatus_unfold.
  pose proof (UpdateItem_Err_tables
                (accountTransitionInput db accountID prevStatus nextStatus now) σ) as H.
  destruct (UpdateItem _ σ) as [[res|e] σ']; simpl in *.
  - destruct (unmarshalAccount (Attributes res)) as [a|e] eqn:E; simpl; [discriminate|].
    intros [= ->]. apply unmarshalAccount_Err in E as (? & ? & [=]).
  - intros _. destruct (isConditionalCheckFailed e); simpl; by apply (H e).
Qed.

Lemma TransitionLeaseStatus_refused_tables (db : DB) (accountID principalID : string)
    (prevStatus nextStatus : LeaseStatus) (reason : LeaseStatusReason)
    (now now' : Z) (σ : DynamoDB) (msg : string) :
  (TransitionLeaseStatus db accountID principalID prevStatus nextStatus reason
     now now' σ).1.2 = Some (StatusTransitionError msg) →
  tables (TransitionLeaseStatus db accountID principalID prevStatus nextStatus reason
            now now' σ).2 = tables σ.
Proof.
  rewrite TransitionLeaseStatus_unfold.
  pose proof (UpdateItem_Err_tables
                (leaseTransitionInput db accountID principalID prevStatus nextStatus
                   reason now now') σ) as H.
  destruct (UpdateItem _ σ) as [[res|e] σ']; simpl in *.
  - destruct (unmarshalLease (Attributes res)) as [a|e] eqn:E; simpl; [discriminate|].
    intros [= ->]. apply unmarshalLease_Err in E as (? & ? & [=]).
  - intros _. destruct (isConditionalCheckFailed e); simpl; by apply (H e).
Qed.

(** X6.  A transition that returns a [StatusTransitionError] has written
    nothing: the tables are as they were before the call, for accounts and
    for leases, in every state of the store. *)
Theorem refused_transition_writes_nothing (db : DB) (σ : DynamoDB) (msg : string) :
  (∀ accountID prevStatus nextStatus now,
     (TransitionAccountStatus db accountID prevStatus nextStatus now σ).1.2
       = Some (StatusTransitionError msg) →
     tables (TransitionAccountStatus db accountID prevStatus nextStatus now σ).2
       = tables σ)
  ∧
  (∀ accountID principalID prevStatus nextStatus reason now now',
     (TransitionLeaseStatus db accountID principalID prevStatus nextStatus reason
        now now' σ).1.2 = Some (StatusTransitionError msg) →
     tables (TransitionLeaseStatus db accountID principalID prevStatus nextStatus
               reason now now' σ).2 = tables σ).
Proof.
  split; intros.
  - by apply (TransitionAccountStatus_refused_tables _ _ _ _ _ _ msg).
  - by apply (TransitionLeaseStatus_refused_tables _ _ _ _ _ _ _ _ _ msg).
Qed.

Lemma refused_transition_writes_nothing_witness :
  tables (TransitionAccountStatus Sample.db "111" "Leased" "Ready" 1600000000
            Sample.store).2 = tables Sample.store.
Proof.
  refine (proj1 (refused_transition_writes_nothing Sample.db Sample.store
                   (accountTransitionMessage "111" "Leased" "Ready"))
            "111" "Leased" "Ready" 1600000000 _).
  reflexivity.
Defined.

Lemma received_oneRead (r : Request) (σ : DynamoDB) :
  isRead r = true → oneRead σ (received r σ).
Proof. intros H. split_and!; [done|done|]. by exists r. Qed.

(** X7.  The four read methods never write: in every state of the store,
    each of [GetAccount], [FindAccountsByStatus], [GetLeaseByID] and
    [FindLeasesByPrincipal] sends exactly one request, a [GetItem] or a
    [Query], and leaves the tables as they are, whatever it returns. *)
Theorem reads_do_not_write (db : DB) (σ : DynamoDB) :
  (∀ accountID, oneRead σ (GetAccount db accountID σ).2) ∧
  (∀ status, oneRead σ (FindAccountsByStatus db status σ).2) ∧
  (∀ leaseID, oneRead σ (GetLeaseByID db leaseID σ).2) ∧
  (∀ principalID, oneRead σ (FindLeasesByPrincipal db principalID σ).2).
Proof.
  split_and!.
  - intros accountID. unfold GetAccount.
    pose proof (GetItem_calls (getAccountInput db accountID) σ) as H.
    unfold getAccountInput in H.
    destruct (GetItem _ σ) as [[[[item|]]|e] σ']; simpl in *; subst σ';
      by apply received_oneRead.
  - intros status. unfold FindAccountsByStatus.
    match goal with
    | |- context [Query ?i σ] => pose proof (Query_calls i σ) as H
    end.
    destruct (Query _ σ) as [[res|e] σ']; simpl in *; subst σ';
      by apply received_oneRead.
  - intros leaseID. unfold GetLeaseByID. cbv zeta.
    match goal with
    | |- context [Query ?i σ] => pose proof (Query_calls i σ) as H
    end.
    destruct (Query _ σ) as [[res|e] σ']; simpl in *; subst σ';
      [|by apply received_oneRead].
    destruct (Items res) as [|item [|item' rest]]; simpl; by apply received_oneRead.
  - intros principalID. unfold FindLeasesByPrincipal. cbv zeta.
    match goal with
    | |- context [Query ?i σ] => pose proof (Query_calls i σ) as H
    end.
    destruct (Query _ σ) as [[res|e] σ']; simpl in *; subst σ';
      [|by apply received_oneRead].
    destruct (Items res); simpl; by apply received_oneRead.
Qed.

(** ** Transitions of leases *)

(** X8.  A transition of a lease whose stored status is [prevStatus]
    succeeds: the call returns the record of the row after the write, with
    the new status, the reason given, and both modification times set to
    the readings of the clock, every other field as stored; in the table the
    row has the four new attributes, its other attributes and all other
    rows are unchanged. *)
Theorem TransitionLeaseStatus_succeeds
    (db : DB) (σ : DynamoDB) (tbl : Table) (item : Item) (lease : Lease.t)
    (accountID principalID : string) (prevStatus nextStatus : LeaseStatus)
    (reason : LeaseStatusReason) (now now' : Z) :
  outage σ = None →
  tables σ !! LeaseTableName db = Some tbl →
  keySchema tbl = ["AccountId"; "PrincipalId"] →
  rows tbl !! [accountID; principalID] = Some item →
  unmarshalLease item = Ok lease →
  item !! "LeaseStatus" = Some (AvS prevStatus) →
  is_int64 now = true → is_int64 now' = true →
  let out := TransitionLeaseStatus db accountID principalID prevStatus nextStatus
               reason now now' σ in
  let lease' := leaseTransitioned lease nextStatus reason now now' in
  out.1 = (Some lease', None) ∧
  Lease.LeaseStatus lease' = nextStatus ∧
  Lease.LeaseStatusReason lease' = reason ∧
  Lease.LastModifiedOn lease' = now ∧
  Lease.LeaseStatusModifiedOn lease' = now' ∧
  Lease.ID lease' = Lease.ID lease ∧
  Lease.ExpiresOn lease' = Lease.ExpiresOn lease ∧
  ∃ tbl' item',
    tables out.2 !! LeaseTableName db = Some tbl' ∧
    rows tbl' !! [accountID; principalID] = Some item' ∧
    item' !! "LeaseStatus" = Some (AvS nextStatus) ∧
    item' !! "LeaseStatusReason" = Some (AvS reason) ∧
    item' !! "LastModifiedOn" = Some (AvN now) ∧
    item' !! "LeaseStatusModifiedOn" = Some (AvN now') ∧
    (∀ name, name ≠ "LeaseStatus" → name ≠ "LeaseStatusReason" →
             name ≠ "LastModifiedOn" → name ≠ "LeaseStatusModifiedOn" →
             item' !! name = item !! name) ∧
    (∀ key, key ≠ [accountID; principalID] → rows tbl' !! key = rows tbl !! key) ∧
    unmarshalLease item' = Ok lease'.
Proof.
  intros Hup Htbl Hschema Hrow Hlease Hstatus Hnow Hnow' out lease'. subst out lease'.
  rewrite (TransitionLeaseStatus_guard_holds db accountID principalID prevStatus
             nextStatus reason now now' σ tbl Hup Htbl Hschema)
    by (rewrite Hrow; by apply holds_S_same).
  rewrite Hrow.
  rewrite (unmarshalLease_after item lease accountID principalID nextStatus reason
             now now' Hlease Hnow Hnow').
  split_and!; try reflexivity.
  eexists _, _. split_and!.
  - simpl. apply lookup_insert_eq.
  - simpl. apply lookup_insert_eq.
  - unfold leaseAfter. by simplify_map_eq.
  - unfold leaseAfter. by simplify_map_eq.
  - unfold leaseAfter. by simplify_map_eq.
  - unfold leaseAfter. by simplify_map_eq.
  - intros name H1 H2 H3 H4. unfold leaseAfter. simpl. by simplify_map_eq.
  - intros key Hkey. simpl. by rewrite lookup_insert_ne.
  - by apply unmarshalLease_after.
Qed.

Lemma TransitionLeaseStatus_succeeds_witness :
  (TransitionLeaseStatus Sample.db "111" "u1" "Active" "Inactive" "Expired"
     1600000000 1600000001 Sample.store).1
  = (Some (leaseTransitioned SampleLease.stored1 "Inactive" "Expired"
             1600000000 1600000001), None).
Proof.
  refine (proj1 (TransitionLeaseStatus_succeeds Sample.db Sample.store Sample.leases
                   Sample.lease1 SampleLease.stored1 "111" "u1" "Active" "Inactive"
                   "Expired" 1600000000 1600000001 _ _ _ _ _ _ _ _)).
  all: reflexivity.
Defined.

(** A successful transition of a lease, with the state it leaves. *)
Lemma TransitionLeaseStatus_ok
    (db : DB) (σ : DynamoDB) (tbl : Table) (item : Item) (lease : Lease.t)
    (accountID principalID : string) (prevStatus nextStatus : LeaseStatus)
    (reason : LeaseStatusReason) (now now' : Z) :
  outage σ = None →
  tables σ !! LeaseTableName db = Some tbl →
  keySchema tbl = ["AccountId"; "PrincipalId"] →
  rows tbl !! [accountID; principalID] = Some item →
  unmarshalLease item = Ok lease →
  item !! "LeaseStatus" = Some (AvS prevStatus) →
  is_int64 now = true → is_int64 now' = true →
  TransitionLeaseStatus db accountID principalID prevStatus nextStatus reason now now' σ
  = ((Some (leaseTransitioned lease nextStatus reason now now'), None),
     withTable (LeaseTableName db)
       (withRows tbl
          (<[ [accountID; principalID] :=
                leaseAfter accountID principalID nextStatus reason now now' (Some item) ]>
             (rows tbl)))
       (received (ReqUpdateItem
                    (leaseTransitionInput db accountID principalID prevStatus nextStatus
                       reason now now')) σ)).
Proof.
  intros Hup Htbl Hschema Hrow Hlease Hstatus Hnow Hnow'.
  rewrite (TransitionLeaseStatus_guard_holds db accountID principalID prevStatus
             nextStatus reason now now' σ tbl Hup Htbl Hschema)
    by (rewrite Hrow; by apply holds_S_same).
  rewrite Hrow.
  by rewrite (unmarshalLease_after item lease accountID principalID nextStatus reason
                now now' Hlease Hnow Hnow').
Qed.

Lemma leaseAfter_status (accountID principalID : string) (nextStatus : LeaseStatus)
    (reason : LeaseStatusReason) (now now' : Z) (stored : option Item) :
  leaseAfter accountID principalID nextStatus reason now now' stored !! "LeaseStatus"
  = Some (AvS nextStatus).
Proof. unfold leaseAfter. by simplify_map_eq. Qed.

(** X9.  Locking and unlocking, as the comment of [TransitionLeaseStatus]
    has it: a transition of a lease from its stored status to another one
    followed by the transition back both succeed, and the second returns
    the lease with its first status, the reason and times of the second
    call, and every other field as it was stored at the start. *)
Theorem lease_transition_and_back
    (db : DB) (σ : DynamoDB) (tbl : Table) (item : Item) (lease : Lease.t)
    (accountID principalID : string) (status other : LeaseStatus)
    (reason reason' : LeaseStatusReason) (t1 t1' t2 t2' : Z) :
  outage σ = None →
  tables σ !! LeaseTableName db = Some tbl →
  keySchema tbl = ["AccountId"; "PrincipalId"] →
  rows tbl !! [accountID; principalID] = Some item →
  unmarshalLease item = Ok lease →
  item !! "LeaseStatus" = Some (AvS status) →
  is_int64 t1 = true → is_int64 t1' = true →
  is_int64 t2 = true → is_int64 t2' = true →
  let there := TransitionLeaseStatus db accountID principalID status other reason
                 t1 t1' σ in
  let back := TransitionLeaseStatus db accountID principalID other status reason'
                t2 t2' there.2 in
  there.1 = (Some (leaseTransitioned lease other reason t1 t1'), None) ∧
  back.1 = (Some (leaseTransitioned lease status reason' t2 t2'), None) ∧
  ∃ tbl' item',
    tables back.2 !! LeaseTableName db = Some tbl' ∧
    rows tbl' !! [accountID; principalID] = Some item' ∧
    item' !! "LeaseStatus" = Some (AvS status) ∧
    (∀ name, name ≠ "LeaseStatus" → name ≠ "LeaseStatusReason" →
             name ≠ "LastModifiedOn" → name ≠ "LeaseStatusModifiedOn" →
             item' !! name = item !! name) ∧
    (∀ key, key ≠ [accountID; principalID] → rows tbl' !! key = rows tbl !! key).
Proof.
  intros Hup Htbl Hschema Hrow Hlease Hstatus H1 H1' H2 H2' there back.
  subst there back.
  rewrite (TransitionLeaseStatus_ok db σ tbl item lease accountID principalID status
             other reason t1 t1' Hup Htbl Hschema Hrow Hlease Hstatus H1 H1').
  cbn [fst snd].
  rewrite (TransitionLeaseStatus_ok db _
             (withRows tbl
                (<[ [accountID; principalID] :=
                      leaseAfter accountID principalID other reason t1 t1' (Some item) ]>
                   (rows tbl)))
             (leaseAfter accountID principalID other reason t1 t1' (Some item))
             (leaseTransitioned lease other reason t1 t1')
             accountID principalID other status reason' t2 t2').
  - split_and!; try reflexivity.
    eexists _, _. cbn [fst snd]. split_and!.
    + simpl. apply lookup_insert_eq.
    + simpl. apply lookup_insert_eq.
    + apply leaseAfter_status.
    + intros name N1 N2 N3 N4. unfold leaseAfter. simpl. by simplify_map_eq.
    + intros key Hkey. simpl. by rewrite !lookup_insert_ne.
  - exact Hup.
  - simpl. apply lookup_insert_eq.
  - exact Hschema.
  - simpl. apply lookup_insert_eq.
  - by apply unmarshalLease_after.
  - apply leaseAfter_status.
  - exact H2.
  - exact H2'.
Qed.

Lemma lease_transition_and_back_witness :
  (TransitionLeaseStatus Sample.db "111" "u1" "ResetLock" "Active" "Unlocked"
     1600000100 1600000101
     (TransitionLeaseStatus Sample.db "111" "u1" "Active" "ResetLock" "Locked"
        1600000000 1600000001 Sample.store).2).1
  = (Some (leaseTransitioned SampleLease.stored1 "Active" "Unlocked"
             1600000100 1600000101), None).
Proof.
  refine (proj1 (proj2 (lease_transition_and_back Sample.db Sample.store Sample.leases
                          Sample.lease1 SampleLease.stored1 "111" "u1" "Active"
                          "ResetLock" "Locked" "Unlocked" 1600000000 1600000001
                          1600000100 1600000101 _ _ _ _ _ _ _ _ _ _))).
  all: reflexivity.
Defined.

Section SameLeaseTransition.
Context (db : DB) (accountID principalID : string).
Context (prevStatus nextStatus : LeaseStatus) (reason : LeaseStatusReason).

Local Abbreviation leaseCall :=
  (fun t : Z * Z =>
     TransitionLeaseStatus db accountID principalID prevStatus nextStatus reason t.1 t.2).
Local Abbreviation leaseRequest :=
  (fun t : Z * Z =>
     ReqUpdateItem (leaseTransitionInput db accountID principalID prevStatus nextStatus
                      reason t.1 t.2)).
Local Abbreviation leaseRefused :=
  (@pair (option Lease.t) (option error) None
     (Some (StatusTransitionError
              (leaseTransitionMessage accountID principalID prevStatus nextStatus)))).

Lemma TransitionLeaseStatus_calls (t : Z * Z) (σ : DynamoDB) :
  calls (leaseCall t σ).2 = calls σ ++ [leaseRequest t].
Proof.
  cbv beta. rewrite TransitionLeaseStatus_unfold.
  pose proof (UpdateItem_calls
                (leaseTransitionInput db accountID principalID prevStatus nextStatus
                   reason t.1 t.2) σ) as H.
  destruct (UpdateItem _ σ) as [[out|e] σ']; simpl in *; [done|].
  by destruct (isConditionalCheckFailed e).
Qed.

Lemma serve_lease_calls (clock : list (Z * Z)) (σ : DynamoDB) :
  calls (serve (map leaseCall clock) σ).2 = calls σ ++ map leaseRequest clock.
Proof.
  revert σ. induction clock as [|t clock IH]; intros σ; simpl.
  - by rewrite app_nil_r.
  - pose proof (TransitionLeaseStatus_calls t σ) as H. cbv beta in H.
    destruct (TransitionLeaseStatus _ _ _ _ _ _ _ _ σ) as [r σ'] eqn:E. simpl in H.
    specialize (IH σ'). destruct (serve (map leaseCall clock) σ') as [rs σ''].
    simpl in *. rewrite IH, H. by rewrite <- app_assoc.
Qed.

Lemma serve_lease_all_refused (clock : list (Z * Z)) (σ : DynamoDB) (tbl : Table) :
  outage σ = None →
  tables σ !! LeaseTableName db = Some tbl →
  keySchema tbl = ["AccountId"; "PrincipalId"] →
  holds ("LeaseStatus", AvS prevStatus) (rows tbl !! [accountID; principalID]) = false →
  (serve (map leaseCall clock) σ).1 = map (fun _ => leaseRefused) clock ∧
  tables (serve (map leaseCall clock) σ).2 = tables σ.
Proof.
  revert σ. induction clock as [|t clock IH]; intros σ Hup Htbl Hschema Hguard.
  - done.
  - simpl.
    rewrite (TransitionLeaseStatus_guard_fails db accountID principalID prevStatus
               nextStatus reason t.1 t.2 σ tbl Hup Htbl Hschema Hguard).
    destruct (IH (received (leaseRequest t) σ) Hup Htbl Hschema Hguard) as [IH1 IH2].
    destruct (serve (map leaseCall clock) _) as [rs σ'']. simpl in *.
    by rewrite IH1, IH2.
Qed.
End SameLeaseTransition.

(** X10.  Callers of the same transition of a lease stored with status
    [prevStatus], to another status, served one after the other by the
    store: the first succeeds, every other one gets a
    [StatusTransitionError], the row is the one the first caller wrote, and
    each call was a single request, a write under a condition. *)
Theorem same_lease_transition_one_winner
    (db : DB) (σ : DynamoDB) (tbl : Table) (item : Item) (lease : Lease.t)
    (accountID principalID : string) (prevStatus nextStatus : LeaseStatus)
    (reason : LeaseStatusReason) (first : Z * Z) (others : list (Z * Z)) :
  outage σ = None →
  tables σ !! LeaseTableName db = Some tbl →
  keySchema tbl = ["AccountId"; "PrincipalId"] →
  rows tbl !! [accountID; principalID] = Some item →
  unmarshalLease item = Ok lease →
  item !! "LeaseStatus" = Some (AvS prevStatus) →
  is_int64 first.1 = true → is_int64 first.2 = true →
  nextStatus ≠ prevStatus →
  let out :=
    serve (map (fun t : Z * Z =>
                  TransitionLeaseStatus db accountID principalID prevStatus nextStatus
                    reason t.1 t.2) (first :: others)) σ in
  out.1 = (Some (leaseTransitioned lease nextStatus reason first.1 first.2), None)
          :: map (fun _ => (None, Some (StatusTransitionError
                     (leaseTransitionMessage accountID principalID
                        prevStatus nextStatus)))) others ∧
  oneWinner out.1 ∧
  (∃ tbl', tables out.2 !! LeaseTableName db = Some tbl' ∧
           rows tbl' !! [accountID; principalID]
           = Some (leaseAfter accountID principalID nextStatus reason
                     first.1 first.2 (Some item))) ∧
  Forall (fun r => isConditionalWrite r = true)
    (drop (length (calls σ)) (calls out.2)) ∧
  length (calls out.2) = (length (calls σ) + S (length others))%nat.
Proof.
  intros Hup Htbl Hschema Hrow Hlease Hstatus H1 H2 Hne out.
  pose proof (serve_lease_calls db accountID principalID prevStatus nextStatus reason
                (first :: others) σ) as Hcalls.
  fold out in Hcalls.
  assert (out.1 = (Some (leaseTransitioned lease nextStatus reason first.1 first.2), None)
          :: map (fun _ => (None, Some (StatusTransitionError
                     (leaseTransitionMessage accountID principalID
                        prevStatus nextStatus)))) others ∧
          tables out.2 !! LeaseTableName db
          = Some (withRows tbl
                    (<[ [accountID; principalID] :=
                          leaseAfter accountID principalID nextStatus reason
                            first.1 first.2 (Some item) ]> (rows tbl))))
    as [Hout Htables].
  { subst out. simpl.
    rewrite (TransitionLeaseStatus_ok db σ tbl item lease accountID principalID
               prevStatus nextStatus reason first.1 first.2
               Hup Htbl Hschema Hrow Hlease Hstatus H1 H2).
    match goal with
    | |- context [serve ?cs ?s] =>
        pose proof (serve_lease_all_refused db accountID principalID prevStatus
                      nextStatus reason others s
                      (withRows tbl (<[ [accountID; principalID] :=
                          leaseAfter accountID principalID nextStatus reason
                            first.1 first.2 (Some item) ]> (rows tbl))))
          as H;
        destruct (serve cs s) as [rs σ'']
    end.
    simpl in *. destruct H as [Hrs Htb].
    - exact Hup.
    - apply lookup_insert_eq.
    - exact Hschema.
    - simpl. rewrite lookup_insert_eq. apply holds_S_differs.
      rewrite leaseAfter_status. congruence.
    - rewrite Hrs, Htb. split; [done|]. apply lookup_insert_eq. }
  split_and!.
  - exact Hout.
  - rewrite Hout. by apply oneWinner_first.
  - eexists. split; [exact Htables|]. simpl. apply lookup_insert_eq.
  - rewrite Hcalls, drop_app_length. by apply Forall_map_all.
  - rewrite Hcalls, length_app, length_map. done.
Qed.

Lemma same_lease_transition_one_winner_witness :
  (serve (map (fun t : Z * Z =>
                 TransitionLeaseStatus Sample.db "111" "u1" "Active" "Inactive"
                   "Expired" t.1 t.2)
            [(1600000000, 1600000000); (1600000001, 1600000002)]) Sample.store).1
  = [ (Some (leaseTransitioned SampleLease.stored1 "Inactive" "Expired"
               1600000000 1600000000), None);
      (None, Some (StatusTransitionError
                     (leaseTransitionMessage "111" "u1" "Active" "Inactive"))) ].
Proof.
  refine (proj1 (same_lease_transition_one_winner Sample.db Sample.store Sample.leases
                   Sample.lease1 SampleLease.stored1 "111" "u1" "Active" "Inactive"
                   "Expired" (1600000000, 1600000000) [(1600000001, 1600000002)]
                   _ _ _ _ _ _ _ _ _)).
  all: try reflexivity.
  discriminate.
Defined.

(** ** Upserts *)

Lemma unmarshalLease_upserted (lease : Lease.t) (stored : option Item) :
  leaseInt64 lease →
  (∀ item, stored = Some item →
           item !! "AccountId" = Some (AvS (Lease.AccountID lease)) ∧
           item !! "PrincipalId" = Some (AvS (Lease.PrincipalID lease))) →
  unmarshalLease (leaseUpserted lease stored) = Ok lease.
Proof.
  intros (H1 & H2 & H3) Hkey.
  unfold leaseUpserted. rewrite upsertLease_assignments.
  set (before := default _ stored).
  assert (before !! "AccountId" = Some (AvS (Lease.AccountID lease)) ∧
          before !! "PrincipalId" = Some (AvS (Lease.PrincipalID lease))) as [HA HP].
  { subst before. destruct stored as [item|]; simpl; [by apply Hkey|].
    unfold leaseKey. by simplify_map_eq. }
  unfold unmarshalLease, UnmarshalMapLease, applySet. simpl foldl.
  repeat first
    [ rewrite decodeString_insert_marshal
    | rewrite decodeInt64_insert_marshal by assumption
    | rewrite decodeString_insert_ne by done
    | rewrite decodeInt64_insert_ne by done ].
  rewrite (decodeString_S before "AccountId" _ HA).
  rewrite (decodeString_S before "PrincipalId" _ HP).
  simpl. by destruct lease.
Qed.

(** A successful upsert, with the state it leaves. *)
Lemma UpsertLease_ok (db : DB) (lease : Lease.t) (σ : DynamoDB) (tbl : Table) :
  validLease lease →
  outage σ = None →
  tables σ !! LeaseTableName db = Some tbl →
  keySchema tbl = ["AccountId"; "PrincipalId"] →
  filedUnderKey tbl (Lease.AccountID lease) (Lease.PrincipalID lease) →
  let key := [Lease.AccountID lease; Lease.PrincipalID lease] in
  UpsertLease db lease σ
  = ((Some lease, None),
     withTable (LeaseTableName db)
       (withRows tbl (<[ key := leaseUpserted lease (rows tbl !! key) ]> (rows tbl)))
       (received (ReqUpdateItem (upsertLeaseInput db lease (upsertExpression lease))) σ)).
Proof.
  intros (HID & Hexp & Hint) Hup Htbl Hschema Hfiled key.
  rewrite (UpsertLease_valid db lease σ HID Hexp).
  rewrite (UpdateItem_healthy (upsertLeaseInput db lease (upsertExpression lease))
             σ tbl Hup Htbl).
  assert (updateRow tbl (upsertLeaseInput db lease (upsertExpression lease))
          = Ok (leaseUpserted lease (rows tbl !! key),
                withRows tbl (<[ key := leaseUpserted lease (rows tbl !! key) ]> (rows tbl))))
    as ->.
  { unfold updateRow. rewrite Hschema. simpl u_Key.
    change (keyOf ["AccountId"; "PrincipalId"]
              (leaseKey (Lease.AccountID lease) (Lease.PrincipalID lease)))
      with (Some key).
    cbv zeta. unfold upsertLeaseInput.
    cbn [u_ExpressionAttributeNames u_ExpressionAttributeValues u_UpdateExpression
         u_ConditionExpression u_ReturnValues u_Key].
    pose proof (upsertExpression_assignments lease) as Hacts.
    unfold assignments in Hacts. rewrite Hacts.
    unfold leaseUpserted. rewrite upsertLease_assignments. reflexivity. }
  cbn [Attributes].
  by rewrite (unmarshalLease_upserted lease (rows tbl !! key) Hint Hfiled).
Qed.

(** X11.  An upsert of a valid lease on a store that answers succeeds
    whatever row, if any, is stored under the key of the lease: it returns
    the lease that was passed, the row it leaves under the key decodes to
    that lease, it keeps the attributes of the row before that are not
    fields of the lease, and no other row changes. *)
Theorem UpsertLease_succeeds (db : DB) (lease : Lease.t) (σ : DynamoDB) (tbl : Table) :
  validLease lease →
  outage σ = None →
  tables σ !! LeaseTableName db = Some tbl →
  keySchema tbl = ["AccountId"; "PrincipalId"] →
  filedUnderKey tbl (Lease.AccountID lease) (Lease.PrincipalID lease) →
  let key := [Lease.AccountID lease; Lease.PrincipalID lease] in
  let out := UpsertLease db lease σ in
  out.1 = (Some lease, None) ∧
  ∃ tbl' row,
    tables out.2 !! LeaseTableName db = Some tbl' ∧
    rows tbl' !! key = Some row ∧
    unmarshalLease row = Ok lease ∧
    (∀ item name, rows tbl !! key = Some item →
                  name ∉ map jsonTag (reflectLease lease) →
                  row !! name = item !! name) ∧
    (∀ key', key' ≠ key → rows tbl' !! key' = rows tbl !! key').
Proof.
  intros Hvalid Hup Htbl Hschema Hfiled key out. subst out.
  rewrite (UpsertLease_ok db lease σ tbl Hvalid Hup Htbl Hschema Hfiled).
  split; [done|]. eexists _, _. split_and!.
  - simpl. apply lookup_insert_eq.
  - simpl. apply lookup_insert_eq.
  - apply unmarshalLease_upserted; [by destruct Hvalid as (_ & _ & ?)|exact Hfiled].
  - intros item name Hrow Hname. fold key. rewrite Hrow. unfold leaseUpserted. simpl default.
    apply applySet_lookup_ne. intros Hin. apply Hname.
    rewrite upsertLease_assignments in Hin. simpl in *.
    rewrite !elem_of_cons in *. tauto.
  - intros key' Hkey'. simpl. by rewrite lookup_insert_ne.
Qed.

Lemma UpsertLease_succeeds_witness :
  (UpsertLease Sample.db SampleLease.lease2 Sample.store).1
  = (Some SampleLease.lease2, None).
Proof.
  refine (proj1 (UpsertLease_succeeds Sample.db SampleLease.lease2 Sample.store
                   Sample.leases _ _ _ _ _)).
  - repeat split; discriminate.
  - reflexivity.
  - reflexivity.
  - reflexivity.
  - intros item H. vm_compute in H. discriminate H.
Defined.





Lemma applySet_lookup_in (acts : list (string * AttributeValue)) (item : Item)
    (name : string) (v : AttributeValue) :
  NoDup (map fst acts) → (name, v) ∈ acts → applySet acts item !! name = Some v.
Proof.
  revert item. induction acts as [|[n w] acts IH]; intros item Hnodup Hin.
  - by apply elem_of_nil in Hin.
  - simpl in Hnodup. apply NoDup_cons in Hnodup as [Hnot Hnodup].
    apply elem_of_cons in Hin as [[= -> ->]|Hin].
    + change (applySet acts (<[ n := w ]> item) !! n = Some w).
      rewrite applySet_lookup_ne by done. apply lookup_insert_eq.
    + change (applySet acts (<[ n := w ]> item) !! name = Some v). by apply IH.
Qed.

Lemma upsertLease_names (lease : Lease.t) :
  map fst (map assignment
             (List.filter (selected (upsertLeaseFields lease)) (reflectLease lease)))
  = ["Id"; "LeaseStatus"; "LeaseStatusReason"; "LastModifiedOn";
     "LeaseStatusModifiedOn"; "ExpiresOn"].
Proof. reflexivity. Qed.

Lemma upsertLease_names_NoDup (lease : Lease.t) :
  NoDup (map fst (map assignment
                    (List.filter (selected (upsertLeaseFields lease))
                       (reflectLease lease)))).
Proof.
  rewrite upsertLease_names.
  repeat (apply NoDup_cons_2; [rewrite ?not_elem_of_cons; split_and?;
                                 try discriminate; apply not_elem_of_nil|]).
  apply NoDup_nil_2.
Qed.

(** An upsert under the same key overwrites all that an earlier one set. *)
Lemma leaseUpserted_overwrites (first second : Lease.t) (stored : option Item) :
  Lease.AccountID first = Lease.AccountID second →
  Lease.PrincipalID first = Lease.PrincipalID second →
  leaseUpserted second (Some (leaseUpserted first stored)) = leaseUpserted second stored.
Proof.
  intros HA HP. apply map_eq. intros name. unfold leaseUpserted at 1 3. simpl default.
  destruct (decide (name ∈ map fst
              (map assignment (List.filter (selected (upsertLeaseFields second))
                                 (reflectLease second))))) as [Hin|Hnot].
  - apply list_elem_of_In, in_map_iff in Hin as ([n v] & Heq & Hin).
    simpl in Heq. subst n. apply list_elem_of_In in Hin.
    rewrite !(applySet_lookup_in _ _ name v); try done; apply upsertLease_names_NoDup.
  - rewrite !applySet_lookup_ne by done.
    unfold leaseUpserted. rewrite applySet_lookup_ne by done.
    by rewrite HA, HP.
Qed.

Lemma leaseUpserted_key (lease : Lease.t) (stored : option Item) :
  (∀ item, stored = Some item →
           item !! "AccountId" = Some (AvS (Lease.AccountID lease)) ∧
           item !! "PrincipalId" = Some (AvS (Lease.PrincipalID lease))) →
  leaseUpserted lease stored !! "AccountId" = Some (AvS (Lease.AccountID lease)) ∧
  leaseUpserted lease stored !! "PrincipalId" = Some (AvS (Lease.PrincipalID lease)).
Proof.
  intros Hkey. unfold leaseUpserted.
  rewrite !applySet_lookup_ne
    by (rewrite upsertLease_names, ?not_elem_of_cons; split_and?;
        try discriminate; apply not_elem_of_nil).
  destruct stored as [item|]; simpl; [by apply Hkey|].
  unfold leaseKey. by simplify_map_eq.
Qed.

(** X13.  The last upsert wins: two upserts of valid leases under the same
    key leave the tables exactly as the second alone would have left them,
    and the second returns its own lease; in particular an upsert repeated
    changes nothing more. *)
Theorem UpsertLease_last_wins
    (db : DB) (first second : Lease.t) (σ : DynamoDB) (tbl : Table) :
  validLease first → validLease second →
  Lease.AccountID first = Lease.AccountID second →
  Lease.PrincipalID first = Lease.PrincipalID second →
  outage σ = None →
  tables σ !! LeaseTableName db = Some tbl →
  keySchema tbl = ["AccountId"; "PrincipalId"] →
  filedUnderKey tbl (Lease.AccountID second) (Lease.PrincipalID second) →
  let both := UpsertLease db second (UpsertLease db first σ).2 in
  both.1 = (Some second, None) ∧
  tables both.2 = tables (UpsertLease db second σ).2.
Proof.
  intros Hfirst Hsecond HA HP Hup Htbl Hschema Hfiled both. subst both.
  assert (filedUnderKey tbl (Lease.AccountID first) (Lease.PrincipalID first)) as Hfiled1
    by (by rewrite HA, HP).
  rewrite (UpsertLease_ok db first σ tbl Hfirst Hup Htbl Hschema Hfiled1).
  cbn [fst snd].
  erewrite (UpsertLease_ok db second).
  2: exact Hsecond.
  2: exact Hup.
  2: { simpl. apply lookup_insert_eq. }
  2: exact Hschema.
  2: { intros item Hrow. simpl in Hrow. rewrite <- HA, <- HP in Hrow.
       rewrite lookup_insert_eq in Hrow. injection Hrow as <-.
       rewrite <- HA, <- HP. apply leaseUpserted_key. exact Hfiled1. }
  rewrite (UpsertLease_ok db second σ tbl Hsecond Hup Htbl Hschema Hfiled).
  split; [done|]. simpl. rewrite insert_insert_eq. f_equal.
  unfold withRows. simpl. f_equal.
  rewrite <- HA, <- HP, lookup_insert_eq, insert_insert_eq.
  by rewrite (leaseUpserted_overwrites first second _ HA HP).
Qed.

Lemma UpsertLease_last_wins_witness :
  tables (UpsertLease Sample.db SampleLease.lease2
            (UpsertLease Sample.db SampleLease.lease2 Sample.store).2).2
  = tables (UpsertLease Sample.db SampleLease.lease2 Sample.store).2.
Proof.
  refine (proj2 (UpsertLease_last_wins Sample.db SampleLease.lease2 SampleLease.lease2
                   Sample.store Sample.leases _ _ _ _ _ _ _ _)).
  - repeat split; discriminate.
  - repeat split; discriminate.
  - reflexivity.
  - reflexivity.
  - reflexivity.
  - reflexivity.
  - reflexivity.
  - intros item H. vm_compute in H. discriminate H.
Defined.

(** ** What a write leaves alone *)

Lemma onlyRow_refl (name : string) (schema key : list string) (σ : DynamoDB) :
  onlyRow name schema key σ σ.
Proof. split_and!; [done|done|]. intros tbl Htbl _. by exists tbl. Qed.

Lemma onlyRow_received (name : string) (schema key : list string) (r : Request)
    (σ : DynamoDB) :
  onlyRow name schema key σ (received r σ).
Proof. split_and!; [done|done|]. intros tbl Htbl _. by exists tbl. Qed.

Lemma updateRow_frame (tbl tbl' : Table) (input : UpdateItemInput) (attrs : Item)
    (key : list string) :
  keyOf (keySchema tbl) (u_Key input) = Some key →
  updateRow tbl input = Ok (attrs, tbl') →
  keySchema tbl' = keySchema tbl ∧ indexes tbl' = indexes tbl ∧
  ∀ key', key' ≠ key → rows tbl' !! key' = rows tbl !! key'.
Proof.
  intros Hkey. unfold updateRow. rewrite Hkey. simpl.
  destruct (mapM _ (u_UpdateExpression input)) as [acts|]; simpl; [|discriminate].
  destruct (u_ConditionExpression input) as [c|]; simpl.
  - destruct (resolveComparison _ _ c) as [rc|]; simpl; [|discriminate].
    destruct (existsb _ acts); [discriminate|].
    destruct (holds rc (rows tbl !! key)); [|discriminate].
    intros [= _ <-]. split_and!; [done|done|].
    intros key' Hne. simpl. by rewrite lookup_insert_ne.
  - destruct (existsb _ acts); [discriminate|].
    intros [= _ <-]. split_and!; [done|done|].
    intros key' Hne. simpl. by rewrite lookup_insert_ne.
Qed.

Lemma UpdateItem_onlyRow (input : UpdateItemInput) (σ : DynamoDB)
    (schema key : list string) :
  keyOf schema (u_Key input) = Some key →
  onlyRow (u_TableName input) schema key σ (UpdateItem input σ).2.
Proof.
  intros Hkey. unfold UpdateItem.
  destruct (outage σ) as [e|] eqn:Hout; [apply onlyRow_received|].
  destruct (tables σ !! u_TableName input) as [tbl|] eqn:Htbl; [|apply onlyRow_received].
  destruct (updateRow tbl input) as [[attrs tbl']|e] eqn:Hrow; [|apply onlyRow_received].
  split_and!.
  - done.
  - intros other Hne. simpl. by rewrite lookup_insert_ne.
  - intros tbl0 Htbl0 Hschema. rewrite Htbl in Htbl0. injection Htbl0 as <-.
    exists tbl'. simpl. rewrite lookup_insert_eq.
    split; [done|]. rewrite <- Hschema in Hkey. by eapply updateRow_frame.
Qed.

(** X14.  Each write touches one row at most: in every state of the store,
    [TransitionAccountStatus] changes nothing in the tables but the row of
    the account in the account table, and [TransitionLeaseStatus] and
    [UpsertLease] nothing but the row of the lease in the lease table;
    the other tables, the other rows, and the key schema and indexes are as
    before, whether the call succeeds or fails. *)
Theorem writes_touch_one_row (db : DB) (σ : DynamoDB) :
  (∀ accountID prevStatus nextStatus now,
     onlyRow (AccountTableName db) ["Id"] [accountID] σ
       (TransitionAccountStatus db accountID prevStatus nextStatus now σ).2) ∧
  (∀ accountID principalID prevStatus nextStatus reason now now',
     onlyRow (LeaseTableName db) ["AccountId"; "PrincipalId"] [accountID; principalID] σ
       (TransitionLeaseStatus db accountID principalID prevStatus nextStatus reason
          now now' σ).2) ∧
  (∀ lease,
     onlyRow (LeaseTableName db) ["AccountId"; "PrincipalId"]
       [Lease.AccountID lease; Lease.PrincipalID lease] σ
       (UpsertLease db lease σ).2).
Proof.
  split_and!.
  - intros accountID prevStatus nextStatus now.
    rewrite TransitionAccountStatus_unfold.
    pose proof (UpdateItem_onlyRow
                  (accountTransitionInput db accountID prevStatus nextStatus now) σ
                  ["Id"] [accountID] eq_refl) as H.
    destruct (UpdateItem _ σ) as [[res|e] σ']; simpl in *; [done|].
    by destruct (isConditionalCheckFailed e).
  - intros accountID principalID prevStatus nextStatus reason now now'.
    rewrite TransitionLeaseStatus_unfold.
    pose proof (UpdateItem_onlyRow
                  (leaseTransitionInput db accountID principalID prevStatus nextStatus
                     reason now now') σ
                  ["AccountId"; "PrincipalId"] [accountID; principalID] eq_refl) as H.
    destruct (UpdateItem _ σ) as [[res|e] σ']; simpl in *; [done|].
    by destruct (isConditionalCheckFailed e).
  - intros lease. unfold UpsertLease.
    destruct (String.length (Lease.ID lease) =? 0)%nat; [apply onlyRow_refl|].
    destruct (Lease.ExpiresOn lease =? 0); [apply onlyRow_refl|].
    destruct (buildUpdateExpression _) as [expr|e]; [|apply onlyRow_refl].
    pose proof (UpdateItem_onlyRow (upsertLeaseInput db lease expr) σ
                  ["AccountId"; "PrincipalId"]
                  [Lease.AccountID lease; Lease.PrincipalID lease] eq_refl) as H.
    unfold upsertLeaseInput, leaseKey in H.
    destruct (UpdateItem _ σ) as [[res|e] σ']; simpl in *; [|done].
    by destruct (unmarshalLease (Attributes res)).
Qed.

(** ** Failures of the store under an upsert *)

(** X15.  When the request of an upsert of a lease that passed validation
    fails, [UpsertLease] returns no lease and the error of the store
    wrapped, as its cause, in a message that names the lease; the message
    ends with the code of the error in brackets when the error is an
    [awserr.Error]; and the tables are as they were. *)
Theorem UpsertLease_store_failure (db : DB) (lease : Lease.t) (σ : DynamoDB) (e : error) :
  Lease.ID lease ≠ EmptyString →
  Lease.ExpiresOn lease ≠ 0 →
  (UpdateItem (upsertLeaseInput db lease (upsertExpression lease)) σ).1 = Err e →
  let out := UpsertLease db lease σ in
  let msg := "Failed to update lease " +:+ leaseRef lease in
  out.1 = (None, Some (WithMessage e
                         match e with
                         | AwsError code _ => msg +:+ " [" +:+ code +:+ "]"
                         | _ => msg
                         end)) ∧
  tables out.2 = tables σ.
Proof.
  intros HID Hexp Herr out msg. subst out msg.
  rewrite (UpsertLease_valid db lease σ HID Hexp).
  pose proof (UpdateItem_Err_tables _ σ e Herr) as Htables.
  destruct (UpdateItem _ σ) as [[res|e'] σ']; simpl in *; [discriminate|].
  injection Herr as ->. split; [|done].
  by destruct e.
Qed.

Lemma UpsertLease_store_failure_witness :
  (UpsertLease Sample.db SampleLease.lease2
     {| tables := tables Sample.store;
        outage := Some (AwsError "ProvisionedThroughputExceededException" "slow down");
        calls := [] |}).1
  = (None, Some (WithMessage
                   (AwsError "ProvisionedThroughputExceededException" "slow down")
                   ("Failed to update lease " +:+ leaseRef SampleLease.lease2 +:+
                    " [" +:+ "ProvisionedThroughputExceededException" +:+ "]"))).
Proof.
  refine (proj1 (UpsertLease_store_failure Sample.db SampleLease.lease2
                   {| tables := tables Sample.store;
                      outage := Some (AwsError "ProvisionedThroughputExceededException"
                                        "slow down");
                      calls := [] |}
                   (AwsError "ProvisionedThroughputExceededException" "slow down")
                   _ _ _)).
  - discriminate.
  - discriminate.
  - reflexivity.
Defined.

(** ** Methods one after the other *)

Lemma leaseUpserted_status (lease : Lease.t) (stored : option Item) :
  Lease.LeaseStatus lease ≠ EmptyString →
  leaseUpserted lease stored !! "LeaseStatus" = Some (AvS (Lease.LeaseStatus lease)).
Proof.
  intros Hstatus. unfold leaseUpserted. rewrite upsertLease_assignments.
  unfold applySet. simpl foldl. rewrite !lookup_insert_ne by done.
  rewrite lookup_insert_eq. unfold marshalString.
  apply String.eqb_neq in Hstatus. by rewrite Hstatus.
Qed.

(** X16.  After an upsert of a valid lease with a status, a transition of
    that lease from the status it was upserted with succeeds, and returns
    the upserted lease with the new status, reason and times. *)
Theorem UpsertLease_then_TransitionLeaseStatus
    (db : DB) (lease : Lease.t) (σ : DynamoDB) (tbl : Table)
    (nextStatus : LeaseStatus) (reason : LeaseStatusReason) (now now' : Z) :
  validLease lease →
  Lease.LeaseStatus lease ≠ EmptyString →
  outage σ = None →
  tables σ !! LeaseTableName db = Some tbl →
  keySchema tbl = ["AccountId"; "PrincipalId"] →
  filedUnderKey tbl (Lease.AccountID lease) (Lease.PrincipalID lease) →
  is_int64 now = true → is_int64 now' = true →
  (TransitionLeaseStatus db (Lease.AccountID lease) (Lease.PrincipalID lease)
     (Lease.LeaseStatus lease) nextStatus reason now now'
     (UpsertLease db lease σ).2).1
  = (Some (leaseTransitioned lease nextStatus reason now now'), None).
Proof.
  intros Hvalid Hstatus Hup Htbl Hschema Hfiled Hnow Hnow'.
  rewrite (UpsertLease_ok db lease σ tbl Hvalid Hup Htbl Hschema Hfiled).
  cbn [fst snd].
  rewrite (TransitionLeaseStatus_ok db _
             (withRows tbl
                (<[ [Lease.AccountID lease; Lease.PrincipalID lease] :=
                      leaseUpserted lease
                        (rows tbl !! [Lease.AccountID lease; Lease.PrincipalID lease]) ]>
                   (rows tbl)))
             (leaseUpserted lease
                (rows tbl !! [Lease.AccountID lease; Lease.PrincipalID lease]))
             lease); try done.
  - simpl. apply lookup_insert_eq.
  - simpl. apply lookup_insert_eq.
  - apply unmarshalLease_upserted; [by destruct Hvalid as (_ & _ & ?)|exact Hfiled].
  - by apply leaseUpserted_status.
Qed.

Lemma UpsertLease_then_TransitionLeaseStatus_witness :
  (TransitionLeaseStatus Sample.db "111" "u2" "Active" "Inactive" "Expired"
     1600000500 1600000501
     (UpsertLease Sample.db SampleLease.lease2 Sample.store).2).1
  = (Some (leaseTransitioned SampleLease.lease2 "Inactive" "Expired"
             1600000500 1600000501), None).
Proof.
  refine (UpsertLease_then_TransitionLeaseStatus Sample.db SampleLease.lease2
            Sample.store Sample.leases "Inactive" "Expired" 1600000500 1600000501
            _ _ _ _ _ _ _ _).
  - repeat split; discriminate.
  - discriminate.
  - reflexivity.
  - reflexivity.
  - reflexivity.
  - intros item H. vm_compute in H. discriminate H.
  - reflexivity.
  - reflexivity.
Defined.





(** ** Queries that find rows *)

Lemma appendAccounts_ok (items : list Item) (decoded acc : list Account.t) :
  decodeAll unmarshalAccount items decoded →
  appendAccounts items (Slice acc) = (Slice (acc ++ decoded), None).
Proof.
  intros H. revert acc. induction H as [|item a items decoded Ha _ IH]; intros acc; simpl.
  - by rewrite app_nil_r.
  - rewrite Ha. unfold append. simpl. rewrite IH. by rewrite <- app_assoc.
Qed.


Lemma appendLeases_ok (items : list Item) (decoded : list Lease.t) (s : slice Lease.t) :
  decodeAll unmarshalLease items decoded →
  appendLeases items s = (if decide (items = []) then s else Slice (elems s ++ decoded),
                          None).
Proof.
  intros H. revert s.
  induction H as [|item a items decoded Ha Hrest IH]; intros s; simpl.
  - done.
  - rewrite Ha, IH. unfold append. simpl.
    destruct (decide (items = [])) as [->|_].
    + by inversion_clear Hrest.
    + by rewrite <- app_assoc.
Qed.


Lemma FindAccountsByStatus_unfold (db : DB) (status : AccountStatus) (σ : DynamoDB)
    (tbl : Table) :
  outage σ = None →
  tables σ !! AccountTableName db = Some tbl →
  indexes tbl !! "AccountStatus" = Some "AccountStatus" →
  (FindAccountsByStatus db status σ).1
  = appendAccounts (matching ("AccountStatus", AvS status) tbl) (Slice []).
Proof.
  intros Hup Htbl Hidx. unfold FindAccountsByStatus.
  pose proof (Query_healthy
                {| q_TableName := AccountTableName db; q_IndexName := "AccountStatus";
                   q_ExpressionAttributeValues := {[ ":status" := AvS status ]};
                   q_KeyConditionExpression := Equals "AccountStatus" ":status" |}
                σ tbl Hup Htbl) as HQ.
  rewrite HQ.
  by rewrite (queryTable_index tbl _ "AccountStatus" "AccountStatus" ":status" status Hidx).
Qed.

Lemma FindLeasesByPrincipal_unfold (db : DB) (principalID : string) (σ : DynamoDB)
    (tbl : Table) :
  outage σ = None →
  tables σ !! LeaseTableName db = Some tbl →
  indexes tbl !! "PrincipalId" = Some "PrincipalId" →
  (FindLeasesByPrincipal db principalID σ).1
  = match matching ("PrincipalId", AvS principalID) tbl with
    | [] => (NilSlice, None)
    | items => appendLeases items NilSlice
    end.
Proof.
  intros Hup Htbl Hidx. unfold FindLeasesByPrincipal. cbv zeta.
  pose proof (Query_healthy
                {| q_TableName := LeaseTableName db; q_IndexName := "PrincipalId";
                   q_ExpressionAttributeValues := {[ ":u1" := AvS principalID ]};
                   q_KeyConditionExpression := Equals "PrincipalId" ":u1" |}
                σ tbl Hup Htbl) as HQ.
  rewrite HQ.
  rewrite (queryTable_index tbl _ "PrincipalId" "PrincipalId" ":u1" principalID Hidx).
  simpl. by destruct (matching _ tbl).
Qed.

Lemma unmarshalLease_PrincipalID (item : Item) (lease : Lease.t) (s : string) :
  unmarshalLease item = Ok lease →
  item !! "PrincipalId" = Some (AvS s) →
  Lease.PrincipalID lease = s.
Proof.
  intros H Hs. unfold unmarshalLease, UnmarshalMapLease in H.
  rewrite (decodeString_S item "PrincipalId" s Hs) in H.
  decoded H. by injection H as <-.
Qed.

(** X18.  [FindAccountsByStatus], when the rows of the status all decode,
    returns their records, one for each row and in the order of the query,
    and no error; every account it returns has the status asked for. *)
Theorem FindAccountsByStatus_found (db : DB) (status : AccountStatus) (σ : DynamoDB)
    (tbl : Table) (accounts : list Account.t) :
  outage σ = None →
  tables σ !! AccountTableName db = Some tbl →
  indexes tbl !! "AccountStatus" = Some "AccountStatus" →
  decodeAll unmarshalAccount (matching ("AccountStatus", AvS status) tbl) accounts →
  (FindAccountsByStatus db status σ).1 = (Slice accounts, None) ∧
  length accounts = length (matching ("AccountStatus", AvS status) tbl) ∧
  Forall (fun account => Account.Status account = status) accounts.
Proof.
  intros Hup Htbl Hidx Hall.
  rewrite (FindAccountsByStatus_unfold db status σ tbl Hup Htbl Hidx).
  rewrite (appendAccounts_ok _ accounts [] Hall). split_and!.
  - done.
  - symmetry. by eapply Forall2_length.
  - assert (Forall (fun item => item !! "AccountStatus" = Some (AvS status))
              (matching ("AccountStatus", AvS status) tbl)) as Hrows.
    { apply Forall_forall. intros item Hitem.
      by apply matching_spec in Hitem as (key & _ & Hattr). }
    unfold decodeAll in Hall.
    induction Hall as [|item a items decoded Ha _ IH]; [constructor|].
    inversion_clear Hrows as [|? ? Hitem Hitems].
    constructor; [by eapply unmarshalAccount_Status|by apply IH].
Qed.

Lemma FindAccountsByStatus_found_witness :
  (FindAccountsByStatus Sample.db "Ready" Sample.store).1
  = (Slice [ {| Account.ID := "111"; Account.Status := "Ready";
                Account.LastModifiedOn := 1500000000; Account.CreatedOn := 0;
                Account.AdminRoleArn := EmptyString;
                Account.PrincipalRoleArn := EmptyString;
                Account.PrincipalPolicyHash := EmptyString;
                Account.Metadata := [] |} ], None).
Proof.
  refine (proj1 (FindAccountsByStatus_found Sample.db "Ready" Sample.store
                   Sample.accounts
                   [ {| Account.ID := "111"; Account.Status := "Ready";
                        Account.LastModifiedOn := 1500000000; Account.CreatedOn := 0;
                        Account.AdminRoleArn := EmptyString;
                        Account.PrincipalRoleArn := EmptyString;
                        Account.PrincipalPolicyHash := EmptyString;
                        Account.Metadata := [] |} ] _ _ _ _)).
  - reflexivity.
  - reflexivity.
  - reflexivity.
  - change (matching ("AccountStatus", AvS "Ready") Sample.accounts)
      with [Sample.account111].
    constructor; [reflexivity|constructor].
Defined.



(** X20.  [FindLeasesByPrincipal], when the rows of the principal all
    decode and there is at least one, returns their records in a slice that
    is not nil, one for each row and in the order of the query, and no
    error; every lease it returns is of the principal asked for. *)
Theorem FindLeasesByPrincipal_found (db : DB) (principalID : string) (σ : DynamoDB)
    (tbl : Table) (leases : list Lease.t) :
  outage σ = None →
  tables σ !! LeaseTableName db = Some tbl →
  indexes tbl !! "PrincipalId" = Some "PrincipalId" →
  matching ("PrincipalId", AvS principalID) tbl ≠ [] →
  decodeAll unmarshalLease (matching ("PrincipalId", AvS principalID) tbl) leases →
  (FindLeasesByPrincipal db principalID σ).1 = (Slice leases, None) ∧
  leases ≠ [] ∧
  length leases = length (matching ("PrincipalId", AvS principalID) tbl) ∧
  Forall (fun lease => Lease.PrincipalID lease = principalID) leases.
Proof.
  intros Hup Htbl Hidx Hsome Hall.
  rewrite (FindLeasesByPrincipal_unfold db principalID σ tbl Hup Htbl Hidx).
  assert (Forall (fun item => item !! "PrincipalId" = Some (AvS principalID))
            (matching ("PrincipalId", AvS principalID) tbl)) as Hrows.
  { apply Forall_forall. intros item Hitem.
    by apply matching_spec in Hitem as (key & _ & Hattr). }
  destruct (matching ("PrincipalId", AvS principalID) tbl) as [|item items] eqn:E;
    [done|].
  rewrite (appendLeases_ok (item :: items) leases NilSlice Hall).
  rewrite decide_False by done. simpl. split_and!.
  - done.
  - inversion Hall. done.
  - symmetry. apply (Forall2_length _ _ _ Hall).
  - clear E Hsome. unfold decodeAll in Hall.
    induction Hall as [|it a its decoded Ha _ IH]; [constructor|].
    inversion_clear Hrows as [|? ? Hitem Hitems].
    constructor; [by eapply unmarshalLease_PrincipalID|by apply IH].
Qed.

Lemma FindLeasesByPrincipal_found_witness :
  (FindLeasesByPrincipal Sample.db "u1" Sample.store).1
  = (Slice [SampleLease.stored1], None).
Proof.
  refine (proj1 (FindLeasesByPrincipal_found Sample.db "u1" Sample.store
                   Sample.leases [SampleLease.stored1] _ _ _ _ _)).
  - reflexivity.
  - reflexivity.
  - reflexivity.
  - change (matching ("PrincipalId", AvS "u1") Sample.leases) with [Sample.lease1].
    discriminate.
  - change (matching ("PrincipalId", AvS "u1") Sample.leases) with [Sample.lease1].
    constructor; [reflexivity|constructor].
Defined.

Lemma appendLeases_shape (items : list Item) (s : slice Lease.t) :
  let r := appendLeases items s in
  (is_Some r.2 ∧ r.1 = NilSlice) ∨
  (r.2 = None ∧ ((items = [] ∧ r.1 = s) ∨ ∃ l, r.1 = Slice l ∧ l ≠ [])).
Proof.
  revert s. induction items as [|item items IH]; intros s; simpl.
  - right. split; [done|]. by left.
  - destruct (unmarshalLease item) as [n|e]; [|left; by split].
    destruct (IH (append s n)) as [Herr|[Hok [[-> Hs]|Hl]]].
    + by left.
    + right. split; [done|]. right. simpl in *. exists (elems s ++ [n]).
      split; [done|]. by destruct (elems s).
    + right. split; [done|]. by right.
Qed.

(** X21.  In every state of the store, the slice [FindLeasesByPrincipal]
    returns is nil exactly when it has no element, so never an empty slice
    that is not nil, and it is nil whenever an error is returned. *)
Theorem FindLeasesByPrincipal_nil_or_nonempty (db : DB) (principalID : string)
    (σ : DynamoDB) :
  let out := (FindLeasesByPrincipal db principalID σ).1 in
  (out.1 = NilSlice ↔ elems out.1 = []) ∧
  (is_Some out.2 → out.1 = NilSlice).
Proof.
  intros out. subst out. unfold FindLeasesByPrincipal. cbv zeta.
  destruct (Query _ σ) as [[resp|e] σ']; simpl; [|by split].
  destruct (Items resp) as [|item items] eqn:E; simpl; [split; [done|by intros []]|].
  pose proof (appendLeases_shape (item :: items) NilSlice) as H. simpl in H.
  destruct H as [[Herr ->]|[Hok [[? _]|(l & -> & Hl)]]]; [by split|done|].
  rewrite Hok. split; [|by intros []]. simpl. split; [done|]. by intros ->.
Qed.






